(** * Opening-range-breakout backtest engine ([first.py])

    A shallow embedding of [ORBStrategy] and of the properties its
    specification states about it.

    Numbers are the ones the program computes with: prices and capital are
    IEEE 754 binary64 values (Rocq's primitive [float], the format of Python's
    [float] and of the [float64] cells of a price frame), position sizes and
    the position flag are unbounded Python integers ([Z]).  Python exceptions
    are an explicit outcome of every fallible function. *)

From Stdlib Require Import ZArith List String Bool Lia QArith Qround Qpower.
From Stdlib Require Import Floats.
Import ListNotations.

Set Implicit Arguments.

(** ** Exceptions *)

Module Py.

(** The exceptions the engine can raise. *)
Inductive exn : Set :=
| OverflowError      (* int(inf); an int too large for a float *)
| ValueError         (* int(nan) *)
| UnboundLocalError. (* a local of [backtest] read before assignment *)

Inductive res (A : Type) : Type :=
| Ok (a : A)
| Raise (e : exn).
Arguments Ok {A} a.
Arguments Raise {A} e.

Definition bind {A B} (m : res A) (k : A -> res B) : res B :=
  match m with
  | Ok a => k a
  | Raise e => Raise e
  end.

(** Reading a local variable that may not have been assigned yet. *)
Definition load {A} (v : option A) : res A :=
  match v with
  | Some a => Ok a
  | None => Raise UnboundLocalError
  end.

End Py.
Import Py.

Declare Scope py_scope.
Delimit Scope py_scope with py.
Notation "x <- m ;; k" := (bind m (fun x => k))
  (at level 61, m at next level, right associativity) : py_scope.
Notation "' p <- m ;; k" := (bind m (fun p => k))
  (at level 61, p pattern, m at next level, right associativity) : py_scope.
Open Scope py_scope.

(** ** Binary64 and its conversions to and from Python integers *)

Module F64.

(** [int(x)] on a float: truncation toward zero; [OverflowError] on an
    infinity and [ValueError] on a NaN. *)
Definition int_of_SF (x : spec_float) : res Z :=
  match x with
  | S754_zero _ => Ok 0%Z
  | S754_infinity _ => Raise OverflowError
  | S754_nan => Raise ValueError
  | S754_finite s m e => Ok (cond_Zopp s (Z.shiftl (Zpos m) e))
  end.

Definition int (x : float) : res Z := int_of_SF (Prim2SF x).

(** An integer operand of a float operation is converted to the nearest
    binary64 value (ties to even); Python raises [OverflowError] when the
    integer is beyond the range of the format. *)
Definition of_int_SF (z : Z) : spec_float := binary_normalize prec emax z 0 false.

Definition nearest (z : Z) : float := SF2Prim (of_int_SF z).

Definition of_int (z : Z) : res float :=
  match of_int_SF z with
  | S754_infinity _ => Raise OverflowError
  | _ => Ok (nearest z)
  end.



End F64.

(** Python's [>] and [>=] on floats are [<] and [<=] with the operands
    exchanged (all four are false when an operand is a NaN). *)
Notation "x >? y" := (PrimFloat.ltb y x) (at level 70, no associativity) : float_scope.
Notation "x >=? y" := (PrimFloat.leb y x) (at level 70, no associativity) : float_scope.

(** ** Data model *)

(** [datetime.time], what [Timestamp.time()] returns. *)
Record time : Set := mk_time {
  hour : Z;
  minute : Z;
  second : Z;
  microsecond : Z
}.

Definition time_eqb (a b : time) : bool :=
  (hour a =? hour b)%Z && (minute a =? minute b)%Z &&
  (second a =? second b)%Z && (microsecond a =? microsecond b)%Z.

(** A [pd.Timestamp]: the instant it denotes (its [value], the key of every
    comparison between timestamps) and the wall-clock time [time()] returns. *)
Record Timestamp : Set := mk_Timestamp {
  value : Z;
  wall_time : time
}.

(** One row of the price frame; [name] is the row's index label. *)
Record Candle : Set := mk_Candle {
  name : Timestamp;
  Open : float;
  High : float;
  Low : float;
  Close : float
}.

Record Trade : Set := mk_Trade {
  entry_price : float;
  exit_price : float;
  result : string;
  position_size : Z;
  entry_time : Timestamp;
  exit_time : Timestamp
}.

(** The attributes of an [ORBStrategy] object.  [closed_dirs] is a ghost
    history variable: the value of [position] at each call of
    [_close_trade], in the order of [trades].  The program never reads it;
    a [Trade] does not record whether it was long or short. *)
Record ORBStrategy : Type := mk_ORBStrategy {
  symbol : string;
  initial_capital : float;
  risk_percent : float;
  capital : float;
  position : Z;
  trades : list Trade;
  closed_dirs : list Z
}.

Definition __init__ (symbol : string) (initial_capital risk_percent : float)
  : res ORBStrategy :=
  Ok {| symbol := symbol;
        initial_capital := initial_capital;
        risk_percent := risk_percent;
        capital := initial_capital;
        position := 0;
        trades := [];
        closed_dirs := [] |}.

(** The locals of [backtest] that live across iterations of its loop; each
    is unbound until first assigned.  ([opening_range_high],
    [opening_range_low] and [risk] are read only right after their
    assignment and are let-bound in [signal].) *)
Record Locals : Set := mk_Locals {
  lv_entry_price : option float;
  lv_stop_loss : option float;
  lv_profit_target : option float;
  lv_position_size : option Z;
  lv_entry_time : option Timestamp
}.

Definition no_locals : Locals := mk_Locals None None None None None.

Definition set_position (self : ORBStrategy) (p : Z) : ORBStrategy :=
  {| symbol := symbol self;
     initial_capital := initial_capital self;
     risk_percent := risk_percent self;
     capital := capital self;
     position := p;
     trades := trades self;
     closed_dirs := closed_dirs self |}.

Definition set_entry_time (lv : Locals) (t : Timestamp) : Locals :=
  {| lv_entry_price := lv_entry_price lv;
     lv_stop_loss := lv_stop_loss lv;
     lv_profit_target := lv_profit_target lv;
     lv_position_size := lv_position_size lv;
     lv_entry_time := Some t |}.

(** ** The strategy *)

Definition calculate_position_size (self : ORBStrategy) (entry_price stop_loss : float)
  : res Z :=
  let risk := abs (entry_price - stop_loss) in
  F64.int ((capital self * risk_percent self) / risk).

(** The trade is appended first; the conversions of the two integer
    operands of [pnl] come next, and [capital] and [position] are written
    last. *)
Definition _close_trade (self : ORBStrategy) (exit_price : float) (result : string)
    (position_size : Z) (entry_price : float) (entry_time exit_time : Timestamp)
  : res ORBStrategy :=
  let trade := {| entry_price := entry_price;
                  exit_price := exit_price;
                  result := result;
                  position_size := position_size;
                  entry_time := entry_time;
                  exit_time := exit_time |} in
  let trades' := trades self ++ [trade] in
  size <- F64.of_int position_size ;;
  dir <- F64.of_int (position self) ;;
  let pnl := ((exit_price - entry_price) * size * dir)%float in
  Ok {| symbol := symbol self;
        initial_capital := initial_capital self;
        risk_percent := risk_percent self;
        capital := (capital self + pnl)%float;
        position := 0;
        trades := trades';
        closed_dirs := closed_dirs self ++ [position self] |}.

Definition process_trade (self : ORBStrategy) (current_candle : Candle)
    (entry_price stop_loss profit_target : float) (position_size : Z)
    (entry_time : Timestamp)
  : res (ORBStrategy * bool) :=
  if (position self =? 1)%Z then
    if (Low current_candle <=? stop_loss)%float then
      self' <- _close_trade self stop_loss "Loss" position_size entry_price
                 entry_time (name current_candle) ;;
      Ok (self', true)
    else if (High current_candle >=? profit_target)%float then
      self' <- _close_trade self profit_target "Profit" position_size entry_price
                 entry_time (name current_candle) ;;
      Ok (self', true)
    else Ok (self, false)
  else if (position self =? -1)%Z then
    if (High current_candle >=? stop_loss)%float then
      self' <- _close_trade self stop_loss "Loss" position_size entry_price
                 entry_time (name current_candle) ;;
      Ok (self', true)
    else if (Low current_candle <=? profit_target)%float then
      self' <- _close_trade self profit_target "Profit" position_size entry_price
                 entry_time (name current_candle) ;;
      Ok (self', true)
    else Ok (self, false)
  else Ok (self, false).

(** [pd.Timestamp("09:35:00").time()] *)
Definition anchor : time := mk_time 9 35 0 0.

(** First half of the loop body (lines 129-152): the signal at the anchor
    time. *)
Definition signal (self : ORBStrategy) (lv : Locals) (previous_candle current_candle : Candle)
  : res (ORBStrategy * Locals) :=
  if time_eqb (wall_time (name current_candle)) anchor then
    let opening_range_high := High previous_candle in
    let opening_range_low := Low previous_candle in
    '(self, lv) <-
      (if (Close previous_candle >? Open previous_candle)%float then
         let entry_price := Open current_candle in
         let stop_loss := opening_range_low in
         let risk := (entry_price - stop_loss)%float in
         let profit_target := (entry_price + risk * 10)%float in
         position_size <- calculate_position_size self entry_price stop_loss ;;
         Ok (set_position self 1,
             mk_Locals (Some entry_price) (Some stop_loss) (Some profit_target)
                       (Some position_size) (lv_entry_time lv))
       else if (Close previous_candle <? Open previous_candle)%float then
         let entry_price := Open current_candle in
         let stop_loss := opening_range_high in
         let risk := (stop_loss - entry_price)%float in
         let profit_target := (entry_price - risk * 10)%float in
         position_size <- calculate_position_size self entry_price stop_loss ;;
         Ok (set_position self (-1),
             mk_Locals (Some entry_price) (Some stop_loss) (Some profit_target)
                       (Some position_size) (lv_entry_time lv))
       else Ok (self, lv)) ;;
    if negb (position self =? 0)%Z
    then Ok (self, set_entry_time lv (name current_candle))
    else Ok (self, lv)
  else Ok (self, lv).

(** Second half of the loop body (lines 155-163): the exit check. *)
Definition check_exit (self : ORBStrategy) (lv : Locals) (current_candle : Candle)
  : res ORBStrategy :=
  if negb (position self =? 0)%Z then
    entry_price <- load (lv_entry_price lv) ;;
    stop_loss <- load (lv_stop_loss lv) ;;
    profit_target <- load (lv_profit_target lv) ;;
    position_size <- load (lv_position_size lv) ;;
    entry_time <- load (lv_entry_time lv) ;;
    '(self, _) <- process_trade self current_candle entry_price stop_loss
                    profit_target position_size entry_time ;;
    Ok self
  else Ok self.

(** One iteration of the loop of [backtest], on [data.iloc[i - 1]] and
    [data.iloc[i]]. *)
Definition step (self : ORBStrategy) (lv : Locals) (previous_candle current_candle : Candle)
  : res (ORBStrategy * Locals) :=
  '(self, lv) <- signal self lv previous_candle current_candle ;;
  self <- check_exit self lv current_candle ;;
  Ok (self, lv).

(** [for i in range(1, len(data))], with [previous_candle] the row before
    the rows still to visit. *)
Fixpoint loop (previous_candle : Candle) (rest : list Candle)
    (self : ORBStrategy) (lv : Locals) : res (ORBStrategy * Locals) :=
  match rest with
  | [] => Ok (self, lv)
  | current_candle :: rest' =>
      '(self, lv) <- step self lv previous_candle current_candle ;;
      loop current_candle rest' self lv
  end.

(** The object and the locals when the loop of [backtest] is over. *)
Definition run (self : ORBStrategy) (data : list Candle) : res (ORBStrategy * Locals) :=
  match data with
  | [] => Ok (self, no_locals)
  | first :: rest => loop first rest self no_locals
  end.

Definition backtest (self : ORBStrategy) (data : list Candle)
  : res (list Trade * float) :=
  '(self, _) <- run self data ;;
  Ok (trades self, capital self).

(** ** Vocabulary of the specification *)

(** The profit or loss [_close_trade] adds to [capital] for trade [t] closed
    while [position] was [d]. *)
Definition realized (t : Trade) (d : Z) : float :=
  ((exit_price t - entry_price t) * F64.nearest (position_size t) * F64.nearest d)%float.

(** [closed s t d s']: [s'] is [s] after closing trade [t] from direction [d]. *)
Definition closed (s : ORBStrategy) (t : Trade) (d : Z) (s' : ORBStrategy) : Prop :=
  d = position s /\
  s' = {| symbol := symbol s;
          initial_capital := initial_capital s;
          risk_percent := risk_percent s;
          capital := (capital s + realized t d)%float;
          position := 0;
          trades := trades s ++ [t];
          closed_dirs := closed_dirs s ++ [d] |}.

Definition bound (lv : Locals) (e sl pt : float) (n : Z) (tm : Timestamp) : Prop :=
  lv = mk_Locals (Some e) (Some sl) (Some pt) (Some n) (Some tm).

(** The ledger of an object created with capital [cap0]: one direction per
    trade, each +1 or -1, and the capital is [cap0] plus the realized profit
    of every logged trade, added in log order. *)
Definition add_realized (c : float) (td : Trade * Z) : float :=
  (c + realized (fst td) (snd td))%float.

Definition ledger (cap0 : float) (s : ORBStrategy) : Prop :=
  List.length (closed_dirs s) = List.length (trades s) /\
  Forall (fun d => d = 1 \/ d = -1)%Z (closed_dirs s) /\
  capital s = fold_left add_realized (combine (trades s) (closed_dirs s)) cap0.

Definition convertible (n : Z) : Prop := F64.of_int n = Ok (F64.nearest n).

(** The position flag is 0, 1 or -1, and while it is not 0 the locals that
    describe the open position are all assigned, with a size that came out
    of the position sizer. *)
Definition wf (s : ORBStrategy) (lv : Locals) : Prop :=
  (position s = 0 \/ position s = 1 \/ position s = -1)%Z /\
  (position s <> 0%Z ->
   exists e sl pt n tm, bound lv e sl pt n tm /\ convertible n).

(** [at_exit_check self pre p c s lv]: in the run of [backtest] on a series
    that starts with [pre ++ [p; c]], [s] and [lv] are the object and the
    locals when the exit check of candle [c] begins (after the signal of
    that iteration). *)
Definition at_exit_check (self : ORBStrategy) (pre : list Candle) (p c : Candle)
    (s : ORBStrategy) (lv : Locals) : Prop :=
  exists s0 l0, run self (pre ++ [p]) = Ok (s0, l0) /\ signal s0 l0 p c = Ok (s, lv).

Definition is_open_after (self : ORBStrategy) (data : list Candle) : bool :=
  match run self data with
  | Ok (s, _) => negb (position s =? 0)%Z
  | Raise _ => false
  end.

(** [open_through self pre suf]: when [backtest] runs on [pre ++ suf], the
    position is open at the end of the iteration of every candle of [suf]. *)
Fixpoint open_through (self : ORBStrategy) (pre suf : list Candle) : bool :=
  match suf with
  | [] => true
  | c :: suf' => is_open_after self (pre ++ [c]) && open_through self (pre ++ [c]) suf'
  end.

Definition at_anchor (c : Candle) : bool := time_eqb (wall_time (name c)) anchor.

(** The locals after an entry at candle [c] with stop [sl], target [pt] and
    size [n]. *)
Definition entered (c : Candle) (sl pt : float) (n : Z) : Locals :=
  mk_Locals (Some (Open c)) (Some sl) (Some pt) (Some n) (Some (name c)).

(** The two branches of the signal: the direction, stop and target the
    candle [p] before the anchor candle [c] gives. *)
Definition breakout (p c : Candle) (d : Z) (sl pt : float) : Prop :=
  ((Close p >? Open p)%float = true /\ d = 1%Z /\ sl = Low p /\
   pt = (Open c + (Open c - Low p) * 10)%float) \/
  ((Close p <? Open p)%float = true /\ d = (-1)%Z /\ sl = High p /\
   pt = (Open c - (High p - Open c) * 10)%float).





Definition sign_false (x : spec_float) : Prop :=
  match x with
  | S754_zero s | S754_infinity s | S754_finite s _ _ => s = false
  | S754_nan => True
  end.

(** [touches d sl pt c]: candle [c] reaches the stop [sl] or the target
    [pt] of a position of direction [d], as [process_trade] tests it. *)
Definition touches (d : Z) (sl pt : float) (c : Candle) : bool :=
  if (d =? 1)%Z then (Low c <=? sl)%float || (High c >=? pt)%float
  else if (d =? -1)%Z then (High c >=? sl)%float || (Low c <=? pt)%float
  else false.

(** A candle that is not at the anchor time and leaves the position of
    direction [d] alone. *)
Definition uneventful (d : Z) (sl pt : float) (c : Candle) : bool :=
  negb (at_anchor c) && negb (touches d sl pt c).

(** [tm] is the timestamp of a candle of [all] at the anchor time. *)
Definition anchored (all : list Candle) (tm : Timestamp) : Prop :=
  exists c, In c all /\ at_anchor c = true /\ tm = name c.

(** A trade entered at an anchor candle of [all] and closed at one of its
    candles, as a loss or as a profit. *)
Definition of_series (all : list Candle) (t : Trade) : Prop :=
  (result t = "Loss"%string \/ result t = "Profit"%string) /\
  anchored all (entry_time t) /\
  exists c, In c all /\ exit_time t = name c.

(** What one call of [backtest] on candles [all] has added after [k]
    iterations: at most [k] trades after those the object had, all of them
    [of_series]; and the entry time in the locals, if any, is [anchored]. *)
Definition journal (all : list Candle) (self : ORBStrategy) (k : nat)
    (s : ORBStrategy) (lv : Locals) : Prop :=
  (exists new, trades s = trades self ++ new /\ (List.length new <= k)%nat /\
               Forall (of_series all) new) /\
  forall tm, lv_entry_time lv = Some tm -> anchored all tm.

(** ** Sample series

    Five-minute candles of two sessions, used to run the engine on concrete
    inputs.  [stamp d h m] is the timestamp of day [d] at [h]:[m]; its
    [value] counts nanoseconds. *)

Definition stamp (d h m : Z) : Timestamp :=
  mk_Timestamp ((d * 86400 + h * 3600 + m * 60) * 1000000000) (mk_time h m 0 0).

Definition candle (d h m : Z) (o hi lo cl : float) : Candle :=
  mk_Candle (stamp d h m) o hi lo cl.

(** 0.01, the default [risk_percent], as the binary64 value Python reads. *)
Definition risk_1pct : float := 0x1.47ae147ae147bp-7.

(** What [__init__] returns. *)
Definition engine (cap rp : float) : ORBStrategy :=
  mk_ORBStrategy "SPY" cap rp cap 0 [] [].

(** A bullish opening candle, then an anchor candle that opens at 102 and
    stays between the stop (99) and the target (132). *)
Definition bull_open : Candle := candle 1 9 30 100 103 99 102.
Definition quiet_anchor : Candle := candle 1 9 35 102 104 101 103.
(** The locals once the long position is opened on [quiet_anchor]. *)
Definition long_102 : Locals :=
  mk_Locals (Some 102%float) (Some 99%float) (Some 132%float) (Some 83%Z)
            (Some (stamp 1 9 35)).
(** A later candle that reaches the target. *)
Definition rally : Candle := candle 1 9 40 103 133 102 130.
(** An anchor candle that touches both the stop and the target. *)
Definition wide_anchor : Candle := candle 1 9 35 102 140 98 110.
(** An anchor candle that opens at the low of [bull_open]. *)
Definition flat_risk_anchor : Candle := candle 1 9 35 99 104 98 103.
(** The next session: a bearish opening candle that touches neither the
    stop nor the target of the long position, and its anchor candle. *)
Definition next_bear_open : Candle := candle 2 9 30 105 106 100 101.
Definition next_anchor : Candle := candle 2 9 35 101 102 100.5 101.5.
(** An anchor candle that opens at 100 and touches nothing, and a later
    candle that falls through the stop at 99. *)
Definition small_anchor : Candle := candle 1 9 35 100 104 99.5 103.
Definition sell_off : Candle := candle 1 9 40 100 101 98 99.
(** An anchor candle that opens at 102 and falls through the stop itself. *)
Definition falling_anchor : Candle := candle 1 9 35 102 104 98 103.

(** ** Reading the outcome of a sequence *)

Lemma bind_Ok {A B} (m : res A) (k : A -> res B) (b : B) :
  bind m k = Ok b -> exists a, m = Ok a /\ k a = Ok b.
Proof.
  destruct m as [a|e]; simpl; intros H; [eauto | discriminate].
Qed.

Lemma of_int_Ok (z : Z) (f : float) : F64.of_int z = Ok f -> f = F64.nearest z.
Proof.
  unfold F64.of_int. destruct (F64.of_int_SF z); intros H; inversion H; reflexivity.
Qed.

Ltac bind_inv H :=
  let a := fresh "a" in
  let Ha := fresh "Hm" in
  apply bind_Ok in H; destruct H as (a & Ha & H).

(** ** The ledger: what closing a trade does to the object *)

Lemma close_trade_Ok s x r n e t1 t2 s' :
  _close_trade s x r n e t1 t2 = Ok s' ->
  closed s (mk_Trade e x r n t1 t2) (position s) s'.
Proof.
  unfold _close_trade. intros H.
  bind_inv H. bind_inv H.
  apply of_int_Ok in Hm, Hm0. subst.
  inversion H; subst. split; reflexivity.
Qed.

(** [process_trade] either leaves the object alone and answers [False], or
    closes one trade from an open position and answers [True]. *)
Lemma process_trade_Ok s c e sl pt n tm s' b :
  process_trade s c e sl pt n tm = Ok (s', b) ->
  (b = false /\ s' = s) \/
  (b = true /\ (position s = 1 \/ position s = -1)%Z /\
   exists x r, closed s (mk_Trade e x r n tm (name c)) (position s) s').
Proof.
  unfold process_trade. intros H.
  destruct (position s =? 1)%Z eqn:E1; [apply Z.eqb_eq in E1|];
    [|destruct (position s =? -1)%Z eqn:E2; [apply Z.eqb_eq in E2|]].
  - destruct (Low c <=? sl)%float; [|destruct (High c >=? pt)%float].
    + bind_inv H. inversion H; subst. apply close_trade_Ok in Hm. eauto 8.
    + bind_inv H. inversion H; subst. apply close_trade_Ok in Hm. eauto 8.
    + inversion H; subst; auto.
  - destruct (High c >=? sl)%float; [|destruct (Low c <=? pt)%float].
    + bind_inv H. inversion H; subst. apply close_trade_Ok in Hm. eauto 8.
    + bind_inv H. inversion H; subst. apply close_trade_Ok in Hm. eauto 8.
    + inversion H; subst; auto.
  - inversion H; subst; auto.
Qed.

(** The signal never touches the ledger: only the position flag and the
    locals change. *)
Lemma signal_Ok s lv p c s' lv' :
  signal s lv p c = Ok (s', lv') ->
  exists d, s' = set_position s d /\
    ((d = position s /\ lv_entry_price lv' = lv_entry_price lv /\
      lv_stop_loss lv' = lv_stop_loss lv /\
      lv_profit_target lv' = lv_profit_target lv /\
      lv_position_size lv' = lv_position_size lv) \/
     (d = 1 \/ d = -1)%Z).
Proof.
  unfold signal. intros H.
  assert (Hid : s = set_position s (position s)) by (destruct s; reflexivity).
  destruct (time_eqb _ _).
  - bind_inv H. destruct a as [s1 l1].
    assert (Hsl : s' = s1 /\ (lv' = l1 \/ lv' = set_entry_time l1 (name c))).
    { destruct (negb _); inversion H; subst; auto. }
    destruct Hsl as [-> Hl]. clear H.
    destruct (Close p >? Open p)%float; [|destruct (Close p <? Open p)%float].
    + bind_inv Hm. inversion Hm; subst. exists 1%Z; auto.
    + bind_inv Hm. inversion Hm; subst. exists (-1)%Z; auto.
    + inversion Hm; subst. exists (position s1). split; [exact Hid|].
      left. destruct Hl as [-> | ->]; simpl; auto.
  - inversion H; subst. exists (position s'). split; [exact Hid|]. left; auto.
Qed.

(** One iteration: the signal, then at most one close, of the position the
    locals describe, at the current candle. *)
Lemma step_Ok s lv p c s' lv' :
  step s lv p c = Ok (s', lv') ->
  exists s1, signal s lv p c = Ok (s1, lv') /\
    (s' = s1 \/
     ((position s1 = 1 \/ position s1 = -1)%Z /\
      exists e sl pt n tm x r, bound lv' e sl pt n tm /\
        closed s1 (mk_Trade e x r n tm (name c)) (position s1) s')).
Proof.
  unfold step. intros H.
  bind_inv H. destruct a as [s1 l1]. bind_inv H. inversion H; subst. clear H.
  exists s1. split; [assumption|].
  unfold check_exit in Hm0.
  destruct (negb _); [|inversion Hm0; auto].
  destruct lv' as [[e|] [sl|] [pt|] [n|] [tm|]]; simpl in Hm0; try discriminate.
  bind_inv Hm0. destruct a as [s2 b]. inversion Hm0; subst.
  apply process_trade_Ok in Hm1.
  destruct Hm1 as [[_ ->] | (_ & Hp & x & r & Hc)]; [auto|].
  right. split; [assumption|]. exists e, sl, pt, n, tm, x, r. split; [reflexivity|assumption].
Qed.

Lemma combine_snoc {A B} (l : list A) (l' : list B) (a : A) (b : B) :
  List.length l = List.length l' ->
  combine (l ++ [a]) (l' ++ [b]) = combine l l' ++ [(a, b)].
Proof.
  revert l'. induction l as [|x l IH]; intros [|y l'] H; simpl in *;
    try discriminate; [reflexivity|].
  rewrite IH by congruence. reflexivity.
Qed.

Lemma ledger_closed cap0 s t s' :
  (position s = 1 \/ position s = -1)%Z ->
  closed s t (position s) s' -> ledger cap0 s -> ledger cap0 s'.
Proof.
  intros Hp [_ ->] (Hlen & Hall & Hcap). unfold ledger; simpl.
  split; [|split].
  - rewrite !length_app, Hlen. reflexivity.
  - apply Forall_app; split; [assumption|]. constructor; [assumption|constructor].
  - rewrite combine_snoc by (symmetry; exact Hlen).
    rewrite fold_left_app. simpl. rewrite <- Hcap. reflexivity.
Qed.

Lemma ledger_set_position cap0 s d : ledger cap0 s -> ledger cap0 (set_position s d).
Proof. unfold ledger; simpl; auto. Qed.

Lemma ledger_step cap0 s lv p c s' lv' :
  step s lv p c = Ok (s', lv') -> ledger cap0 s -> ledger cap0 s'.
Proof.
  intros H HL. apply step_Ok in H. destruct H as (s1 & Hs & H).
  apply signal_Ok in Hs. destruct Hs as (d & -> & _).
  apply (ledger_set_position d) in HL.
  destruct H as [-> | (Hp & e & sl & pt & n & tm & x & r & _ & Hc)]; [assumption|].
  eapply ledger_closed; eauto.
Qed.

Lemma ledger_loop cap0 rest : forall p s lv s' lv',
  loop p rest s lv = Ok (s', lv') -> ledger cap0 s -> ledger cap0 s'.
Proof.
  induction rest as [|c rest IH]; simpl; intros p s lv s' lv' H HL.
  - inversion H; subst; assumption.
  - bind_inv H. destruct a as [s1 l1].
    eapply IH; [exact H|]. eapply ledger_step; eauto.
Qed.

Lemma ledger_run cap0 data s s' lv' :
  run s data = Ok (s', lv') -> ledger cap0 s -> ledger cap0 s'.
Proof.
  destruct data as [|c0 rest]; simpl; intros H HL.
  - inversion H; subst; assumption.
  - eapply ledger_loop; eauto.
Qed.

(** C1. Capital conservation: when [backtest] returns, the capital it
    returns is the initial capital plus, for each trade of the returned log in
    order, (exit_price - entry_price) * position_size * direction, where the
    direction is the position flag at the close, +1 (long) or -1 (short);
    there is exactly one such term per logged trade and nothing else ever
    changes the capital. *)
Theorem capital_conservation :
  forall sym cap0 rp self data log final,
    __init__ sym cap0 rp = Ok self ->
    backtest self data = Ok (log, final) ->
    exists dirs,
      (exists s lv, run self data = Ok (s, lv) /\ log = trades s /\
                    final = capital s /\ dirs = closed_dirs s) /\
      List.length dirs = List.length log /\
      Forall (fun d => d = 1 \/ d = -1)%Z dirs /\
      final = fold_left
                (fun c td =>
                   (c + (exit_price (fst td) - entry_price (fst td))
                        * F64.nearest (position_size (fst td))
                        * F64.nearest (snd td))%float)
                (combine log dirs) cap0.
Proof.
  intros sym cap0 rp self data log final Hinit Hbt.
  inversion Hinit; subst self; clear Hinit.
  unfold backtest in Hbt. bind_inv Hbt. destruct a as [s lv].
  inversion Hbt; subst log final; clear Hbt.
  exists (closed_dirs s). split; [eauto 8|].
  apply (@ledger_run cap0) in Hm; [exact Hm|].
  repeat split; simpl; constructor.
Qed.

(** ** Binary64 facts *)

Module F64Facts.

Lemma digits2_pos_size p : digits2_pos p = Pos.size p.
Proof. induction p; simpl; congruence. Qed.

Lemma digits2_pos_iter_xO p k :
  digits2_pos (Pos.iter xO p k) = (digits2_pos p + k)%positive.
Proof.
  induction k using Pos.peano_ind.
  - simpl. lia.
  - rewrite Pos.iter_succ. simpl. rewrite IHk. lia.
Qed.

Lemma digits2_pos_le p q : (p <= q)%positive -> (digits2_pos p <= digits2_pos q)%positive.
Proof.
  intros H. rewrite (digits2_pos_size p), (digits2_pos_size q).
  assert (Hl : (Z.log2 (Zpos p~0) <= Z.log2 (Zpos q~0))%Z) by (apply Z.log2_le_mono; lia).
  change (Z.log2 (Zpos p~0)) with (Zpos (Pos.size p)) in Hl.
  change (Z.log2 (Zpos q~0)) with (Zpos (Pos.size q)) in Hl.
  lia.
Qed.

Lemma iter_pos_iter {A} (f : A -> A) p : forall x, iter_pos f p x = Pos.iter f x p.
Proof.
  induction p as [p IH|p IH|]; intros x; simpl.
  - rewrite !IH. rewrite <- !Pos.iter_swap. reflexivity.
  - rewrite !IH. reflexivity.
  - reflexivity.
Qed.

Lemma shr_1_iter_xO m k :
  iter_pos shr_1 k (Build_shr_record (Zpos (Pos.iter xO m k)) false false)
  = Build_shr_record (Zpos m) false false.
Proof.
  rewrite iter_pos_iter.
  induction k using Pos.peano_ind.
  - reflexivity.
  - rewrite Pos.iter_succ_r. rewrite Pos.iter_succ with (f := xO). simpl. exact IHk.
Qed.

Lemma shiftl_pos_iter_xO m k : Z.shiftl (Zpos m) (Zpos k) = Zpos (Pos.iter xO m k).
Proof.
  simpl. induction k using Pos.peano_ind.
  - reflexivity.
  - rewrite !Pos.iter_succ, IHk. reflexivity.
Qed.

(** A mantissa of exactly 53 bits with an exponent in range is kept as it
    is by the rounding of an exact value. *)
Lemma shr_fexp_canonical mz ez :
  digits2_pos mz = 53%positive -> (-1074 <= ez)%Z ->
  shr_fexp prec emax (Zpos mz) ez loc_Exact
  = (Build_shr_record (Zpos mz) false false, ez).
Proof.
  intros Hd He.
  unfold shr_fexp, fexp, SpecFloat.emin, prec, emax. simpl Zdigits2. rewrite Hd.
  replace (Z.max (53 + ez - 53) (3 - 1024 - 53) - ez)%Z with 0%Z by lia.
  reflexivity.
Qed.

Lemma binary_round_aux_canonical sx mz ez :
  digits2_pos mz = 53%positive -> (-1074 <= ez <= 971)%Z ->
  binary_round_aux prec emax sx (Zpos mz) ez loc_Exact = S754_finite sx mz ez.
Proof.
  intros Hd He.
  unfold binary_round_aux.
  rewrite shr_fexp_canonical by (assumption || lia). simpl.
  rewrite shr_fexp_canonical by (assumption || lia). simpl.
  destruct (ez <=? 971)%Z eqn:E; [reflexivity|]. apply Z.leb_gt in E. lia.
Qed.

(** An integer of at most 53 bits converts exactly. *)
Lemma binary_round_small sx p :
  (digits2_pos p <= 53)%positive ->
  exists m e, binary_round prec emax sx p 0 = S754_finite sx m e.
Proof.
  intros Hd. unfold binary_round.
  assert (Hf : fexp prec emax (Zpos (digits2_pos p) + 0) = (Zpos (digits2_pos p) - 53)%Z).
  { unfold fexp, SpecFloat.emin, prec, emax. lia. }
  rewrite Hf. unfold shl_align.
  destruct (Zpos (digits2_pos p) - 53 - 0)%Z as [|k|k] eqn:E; try lia.
  - eexists _, _. apply binary_round_aux_canonical; lia.
  - eexists _, _. apply binary_round_aux_canonical; [|lia].
    rewrite digits2_pos_iter_xO. lia.
Qed.

(** So does a 53-bit integer shifted left, up to the largest exponent. *)
Lemma binary_round_shifted sx m k :
  digits2_pos m = 53%positive -> (Zpos k <= 971)%Z ->
  binary_round prec emax sx (Pos.iter xO m k) 0 = S754_finite sx m (Zpos k).
Proof.
  intros Hd Hk. unfold binary_round.
  assert (Hf : fexp prec emax (Zpos (digits2_pos (Pos.iter xO m k)) + 0) = Zpos k).
  { rewrite digits2_pos_iter_xO, Hd. unfold fexp, SpecFloat.emin, prec, emax. lia. }
  rewrite Hf. unfold shl_align. simpl Z.sub.
  unfold binary_round_aux.
  assert (Hs : shr_fexp prec emax (Zpos (Pos.iter xO m k)) 0 loc_Exact
               = (Build_shr_record (Zpos m) false false, Zpos k)).
  { unfold shr_fexp. simpl Zdigits2. rewrite Hf. simpl Z.sub.
    unfold shr. simpl shr_record_of_loc. rewrite shr_1_iter_xO. reflexivity. }
  rewrite Hs. simpl shr_m. simpl loc_of_shr_record. simpl round_nearest_even.
  rewrite shr_fexp_canonical by (assumption || lia). simpl.
  destruct (Zpos k <=? 971)%Z eqn:E; [reflexivity|]. apply Z.leb_gt in E. lia.
Qed.

Lemma bounded_digits m e :
  bounded prec emax m e = true ->
  (digits2_pos m <= 53)%positive /\ (e <= 971)%Z /\
  ((0 < e)%Z -> digits2_pos m = 53%positive).
Proof.
  unfold bounded, canonical_mantissa, fexp, SpecFloat.emin, prec, emax.
  intros H. apply andb_prop in H. destruct H as [H1 H2].
  apply Z.eqb_eq in H1. apply Z.leb_le in H2. lia.
Qed.

(** The truncation of a finite binary64 value is an integer in the range
    of the format. *)
Lemma of_int_SF_int_of_SF x n :
  valid_binary x = true -> F64.int_of_SF x = Ok n ->
  match F64.of_int_SF n with S754_infinity _ => False | _ => True end.
Proof.
  destruct x as [s|s| |s m e]; simpl; intros Hv H; try discriminate.
  - inversion H; subst. exact I.
  - inversion H; subst; clear H.
    apply bounded_digits in Hv. destruct Hv as (Hd & He & Hn).
    assert (Hsmall : forall sx p, (p <= m)%positive ->
              match binary_round prec emax sx p 0 with
              | S754_infinity _ => False | _ => True end).
    { intros sx p Hp.
      destruct (@binary_round_small sx p) as (m' & e' & ->); [|exact I].
      apply digits2_pos_le in Hp. lia. }
    unfold F64.of_int_SF.
    destruct e as [|k|k].
    + change (Z.shiftl (Zpos m) 0) with (Zpos m).
      destruct s; simpl; apply Hsmall; lia.
    + rewrite shiftl_pos_iter_xO.
      destruct s; simpl; rewrite binary_round_shifted by (auto; lia); exact I.
    + change (Zneg k) with (- Zpos k)%Z. rewrite Z.shiftl_opp_r.
      rewrite Z.shiftr_div_pow2 by lia.
      assert (Hq : (0 <= Zpos m / 2 ^ Zpos k <= Zpos m)%Z).
      { split; [apply Z.div_pos; lia|].
        apply Z.div_le_upper_bound; [lia|]. nia. }
      destruct (Zpos m / 2 ^ Zpos k)%Z as [|p|p] eqn:E; try lia.
      * destruct s; exact I.
      * destruct s; simpl; apply Hsmall; lia.
Qed.

Lemma int_convertible q n : F64.int q = Ok n -> F64.of_int n = Ok (F64.nearest n).
Proof.
  unfold F64.int, F64.of_int. intros H.
  apply of_int_SF_int_of_SF in H; [|apply Prim2SF_valid].
  destruct (F64.of_int_SF n); tauto.
Qed.

End F64Facts.

(** ** Well-formed engine states *)

Lemma calculate_position_size_convertible s e sl n :
  calculate_position_size s e sl = Ok n -> convertible n.
Proof. unfold calculate_position_size. apply F64Facts.int_convertible. Qed.

Lemma signal_unfold s lv p c :
  signal s lv p c =
  if time_eqb (wall_time (name c)) anchor then
    if (Close p >? Open p)%float then
      n <- calculate_position_size s (Open c) (Low p) ;;
      Ok (set_position s 1,
          mk_Locals (Some (Open c)) (Some (Low p))
                    (Some (Open c + (Open c - Low p) * 10)%float)
                    (Some n) (Some (name c)))
    else if (Close p <? Open p)%float then
      n <- calculate_position_size s (Open c) (High p) ;;
      Ok (set_position s (-1),
          mk_Locals (Some (Open c)) (Some (High p))
                    (Some (Open c - (High p - Open c) * 10)%float)
                    (Some n) (Some (name c)))
    else if (position s =? 0)%Z then Ok (s, lv)
    else Ok (s, set_entry_time lv (name c))
  else Ok (s, lv).
Proof.
  unfold signal.
  destruct (time_eqb _ _); [|reflexivity].
  destruct (Close p >? Open p)%float; [|destruct (Close p <? Open p)%float].
  - destruct (calculate_position_size s (Open c) (Low p)); reflexivity.
  - destruct (calculate_position_size s (Open c) (High p)); reflexivity.
  - simpl. destruct (position s =? 0)%Z; reflexivity.
Qed.

Lemma wf_signal s lv p c s' lv' :
  signal s lv p c = Ok (s', lv') -> wf s lv -> wf s' lv'.
Proof.
  rewrite signal_unfold. intros H [Hp Hb].
  destruct (time_eqb _ _); [|inversion H; subst; split; assumption].
  destruct (Close p >? Open p)%float; [|destruct (Close p <? Open p)%float].
  - bind_inv H. inversion H; subst. apply calculate_position_size_convertible in Hm.
    split; simpl; [auto|]. intros _. unfold bound.
    do 5 eexists. split; [reflexivity|assumption].
  - bind_inv H. inversion H; subst. apply calculate_position_size_convertible in Hm.
    split; simpl; [auto|]. intros _. unfold bound.
    do 5 eexists. split; [reflexivity|assumption].
  - destruct (position s =? 0)%Z eqn:E; inversion H; subst.
    + split; assumption.
    + apply Z.eqb_neq in E. split; [assumption|]. intros _.
      destruct (Hb E) as (e & sl & pt & n & tm & Hbd & Hc).
      unfold bound in *. subst lv. simpl.
      do 5 eexists. split; [reflexivity|assumption].
Qed.

Lemma convertible_unit d : (d = 1 \/ d = -1)%Z -> convertible d.
Proof. intros [-> | ->]; reflexivity. Qed.

(** Closing an open position of a well-formed state cannot fail. *)
Lemma close_trade_wf s x r n e t1 t2 :
  (position s = 1 \/ position s = -1)%Z -> convertible n ->
  exists s', _close_trade s x r n e t1 t2 = Ok s' /\
             closed s (mk_Trade e x r n t1 t2) (position s) s'.
Proof.
  intros Hp Hn. unfold _close_trade.
  rewrite Hn. simpl. rewrite (convertible_unit Hp). simpl.
  eexists. split; [reflexivity|]. split; reflexivity.
Qed.

Lemma wf_closed s t d s' lv : closed s t d s' -> wf s' lv.
Proof. intros [_ ->]. split; simpl; [auto|]. intros H; contradiction H; reflexivity. Qed.

Lemma process_trade_wf s c e sl pt n tm :
  (position s = 1 \/ position s = -1)%Z -> convertible n ->
  exists s' b, process_trade s c e sl pt n tm = Ok (s', b).
Proof.
  intros Hp Hn. unfold process_trade.
  destruct (@close_trade_wf s sl "Loss"%string n e tm (name c) Hp Hn) as (s1 & H1 & _).
  destruct (@close_trade_wf s pt "Profit"%string n e tm (name c) Hp Hn) as (s2 & H2 & _).
  rewrite H1, H2. simpl.
  repeat match goal with |- context [if ?b then _ else _] => destruct b end; eauto.
Qed.

Lemma check_exit_wf s lv c :
  wf s lv -> exists s', check_exit s lv c = Ok s' /\ wf s' lv.
Proof.
  intros Hwf. unfold check_exit.
  destruct (position s =? 0)%Z eqn:E; simpl; [eauto|].
  apply Z.eqb_neq in E.
  destruct Hwf as [Hp Hb].
  destruct (Hb E) as (e & sl & pt & n & tm & Hbd & Hc).
  unfold bound in Hbd. subst lv. simpl.
  assert (Hp' : (position s = 1 \/ position s = -1)%Z) by tauto.
  destruct (@process_trade_wf s c e sl pt n tm Hp' Hc) as (s' & b & H).
  rewrite H. simpl. exists s'. split; [reflexivity|].
  apply process_trade_Ok in H.
  destruct H as [[_ ->] | (_ & _ & x & r & H)].
  - split; [assumption|]. intros _. unfold bound.
    do 5 eexists. split; [reflexivity|assumption].
  - eapply wf_closed; eauto.
Qed.

Lemma wf_step s lv p c s' lv' :
  step s lv p c = Ok (s', lv') -> wf s lv -> wf s' lv'.
Proof.
  unfold step. intros H Hwf.
  bind_inv H. destruct a as [s1 l1]. bind_inv H. inversion H; subst.
  apply wf_signal in Hm; [|assumption].
  destruct (@check_exit_wf s1 lv' c Hm) as (s2 & H2 & Hwf2).
  congruence.
Qed.

Lemma wf_loop rest : forall p s lv s' lv',
  loop p rest s lv = Ok (s', lv') -> wf s lv -> wf s' lv'.
Proof.
  induction rest as [|c rest IH]; simpl; intros p s lv s' lv' H Hwf.
  - inversion H; subst; assumption.
  - bind_inv H. destruct a as [s1 l1].
    eapply IH; [exact H|]. eapply wf_step; eauto.
Qed.

Lemma wf_flat s lv : position s = 0%Z -> wf s lv.
Proof. intros H. split; [auto|]. intros H'; contradiction. Qed.

Lemma wf_run s data s' lv' :
  run s data = Ok (s', lv') -> position s = 0%Z -> wf s' lv'.
Proof.
  destruct data as [|c0 rest]; simpl; intros H Hp.
  - inversion H; subst. apply wf_flat; assumption.
  - eapply wf_loop; [exact H|]. apply wf_flat; assumption.
Qed.

(** ** The loop, one more candle at a time *)

Lemma last_cons_default {A} (l : list A) (a d d' : A) :
  last (a :: l) d = last (a :: l) d'.
Proof.
  revert a. induction l as [|b l IH]; intros a; [reflexivity|].
  change (last (b :: l) d = last (b :: l) d'). apply IH.
Qed.

Lemma loop_snoc rest : forall p s lv c,
  loop p (rest ++ [c]) s lv =
  bind (loop p rest s lv) (fun sl => step (fst sl) (snd sl) (last rest p) c).
Proof.
  induction rest as [|c1 rest IH]; intros p s lv c; simpl.
  - destruct (step s lv p c) as [[s1 l1]|]; reflexivity.
  - destruct (step s lv p c1) as [[s1 l1]|]; simpl; [|reflexivity].
    rewrite IH. destruct rest as [|c0 rest]; [reflexivity|].
    rewrite (last_cons_default rest c0 c1 p). reflexivity.
Qed.

Lemma run_snoc s pre p c :
  run s (pre ++ [p; c]) =
  bind (run s (pre ++ [p])) (fun sl => step (fst sl) (snd sl) p c).
Proof.
  destruct pre as [|c0 pre]; simpl.
  - destruct (step s no_locals p c) as [[s1 l1]|]; reflexivity.
  - change (pre ++ [p; c]) with (pre ++ [p] ++ [c]). rewrite app_assoc.
    rewrite loop_snoc. rewrite last_last. reflexivity.
Qed.

(** ** Exits *)

Lemma init_flat sym cap rp self : __init__ sym cap rp = Ok self -> position self = 0%Z.
Proof. intros H. inversion H. reflexivity. Qed.

(** C3. Stop-loss priority: whenever a position is open at the exit check of
    a candle whose low and high satisfy both the stop-loss condition and the
    profit-target condition, that iteration closes the position at the
    stop-loss price with result "Loss" (for a long and for a short position
    alike); no "Profit" is recorded. *)
Theorem stop_loss_priority :
  forall sym cap rp self pre p c s lv sl pt,
    __init__ sym cap rp = Ok self ->
    at_exit_check self pre p c s lv ->
    lv_stop_loss lv = Some sl ->
    lv_profit_target lv = Some pt ->
    (position s = 1%Z /\ (Low c <=? sl)%float = true /\ (High c >=? pt)%float = true) \/
    (position s = (-1)%Z /\ (High c >=? sl)%float = true /\ (Low c <=? pt)%float = true) ->
    exists s' t,
      run self (pre ++ [p; c]) = Ok (s', lv) /\
      trades s' = trades s ++ [t] /\
      result t = "Loss"%string /\
      exit_price t = sl /\
      exit_time t = name c /\
      lv_entry_price lv = Some (entry_price t) /\
      lv_position_size lv = Some (position_size t) /\
      position s' = 0%Z.
Proof.
  intros sym cap rp self pre p c s lv sl pt Hinit (s0 & l0 & Hrun & Hsig) Hsl Hpt Hboth.
  assert (Hwf : wf s lv).
  { eapply wf_signal; [exact Hsig|]. eapply wf_run; [exact Hrun|].
    eapply init_flat; eauto. }
  destruct Hwf as [_ Hb].
  destruct Hb as (e & sl' & pt' & n & tm & Hbd & Hn).
  { destruct Hboth as [(H & _) | (H & _)]; rewrite H; discriminate. }
  unfold bound in Hbd. subst lv. simpl in Hsl, Hpt.
  inversion Hsl; subst sl'. inversion Hpt; subst pt'. clear Hsl Hpt.
  assert (Hp : (position s = 1 \/ position s = -1)%Z) by tauto.
  destruct (@close_trade_wf s sl "Loss"%string n e tm (name c) Hp Hn) as (s' & Hc & _ & Hs').
  exists s', (mk_Trade e sl "Loss" n tm (name c)).
  split; [|subst s'; simpl; repeat split; reflexivity].
  rewrite run_snoc, Hrun. simpl. unfold step. rewrite Hsig. simpl.
  unfold check_exit, process_trade. cbn [load bind lv_entry_price lv_stop_loss
    lv_profit_target lv_position_size lv_entry_time].
  destruct Hboth as [(H & H1 & H2) | (H & H1 & H2)]; rewrite H; cbn [Z.eqb negb Pos.eqb bind];
    rewrite H1, Hc; reflexivity.
Qed.

(** ** A position left open *)

(** An iteration that ends with the position open has not touched the
    ledger. *)
Lemma step_open_frame s lv p c s' lv' :
  step s lv p c = Ok (s', lv') -> position s' <> 0%Z ->
  trades s' = trades s /\ capital s' = capital s /\ closed_dirs s' = closed_dirs s.
Proof.
  intros H Hopen. apply step_Ok in H. destruct H as (s1 & Hs & H).
  apply signal_Ok in Hs. destruct Hs as (d & -> & _).
  destruct H as [-> | (_ & e & sl & pt & n & tm & x & r & _ & _ & ->)].
  - simpl; auto.
  - simpl in Hopen. contradiction Hopen; reflexivity.
Qed.

Lemma backtest_open_snoc self pre c :
  is_open_after self (pre ++ [c]) = true ->
  exists log cap, backtest self (pre ++ [c]) = Ok (log, cap) /\
                  backtest self pre = Ok (log, cap).
Proof.
  unfold is_open_after, backtest.
  destruct pre as [|p pre _] using rev_ind.
  - simpl. intros _. eauto.
  - rewrite <- app_assoc. simpl app. rewrite run_snoc.
    destruct (run self (pre ++ [p])) as [[s1 l1]|]; simpl; [|discriminate].
    destruct (step s1 l1 p c) as [[s2 l2]|] eqn:E; simpl; [|discriminate].
    intros H. apply negb_true_iff, Z.eqb_neq in H.
    destruct (step_open_frame _ _ _ _ E H) as (Ht & Hc & _).
    rewrite Ht, Hc. eauto.
Qed.

(** C9. A position still open when the series ends is not closed by
    [backtest]: if the position is open at the end of every iteration from
    some candle on (the candles of [suf], which is not empty) until the end
    of the series, [backtest] returns the trade log and the capital it
    returns on the series cut just before that candle; the open position adds
    no trade and changes no capital. *)
Theorem open_position_dropped :
  forall self pre suf,
    suf <> [] ->
    open_through self pre suf = true ->
    exists log cap,
      backtest self (pre ++ suf) = Ok (log, cap) /\
      backtest self pre = Ok (log, cap) /\
      is_open_after self (pre ++ suf) = true.
Proof.
  intros self pre suf. revert pre.
  induction suf as [|c suf IH]; intros pre Hne H; [contradiction Hne; reflexivity|].
  simpl in H. apply andb_prop in H. destruct H as [Hc Hrest].
  destruct (backtest_open_snoc self pre c Hc) as (log & cap & Hb1 & Hb0).
  destruct suf as [|c' suf].
  - exists log, cap. auto.
  - destruct (IH (pre ++ [c])) as (log' & cap' & Ha & Hb & Ho);
      [discriminate|assumption|].
    rewrite <- app_assoc in Ha, Ho. simpl app in Ha, Ho.
    exists log, cap. rewrite Ha. split; [congruence|]. split; assumption.
Qed.

(** ** Entries *)

Lemma signal_long s lv p c n :
  at_anchor c = true -> (Close p >? Open p)%float = true ->
  calculate_position_size s (Open c) (Low p) = Ok n ->
  signal s lv p c =
  Ok (set_position s 1,
      entered c (Low p) (Open c + (Open c - Low p) * 10)%float n).
Proof.
  unfold at_anchor. intros Ha Hb Hn.
  rewrite signal_unfold, Ha, Hb, Hn. reflexivity.
Qed.

Lemma ltb_irrefl_swap x y : (x <? y)%float = true -> (y <? x)%float = false.
Proof.
  rewrite !ltb_spec. unfold SFltb.
  destruct (Prim2SF x) as [sx|sx| |sx mx ex], (Prim2SF y) as [sy|sy| |sy my ey];
    simpl; try discriminate; try reflexivity;
    try (destruct sx; discriminate || reflexivity);
    try (destruct sy; discriminate || reflexivity);
    try (destruct sx, sy; discriminate || reflexivity).
  destruct sx, sy; try discriminate; try reflexivity.
  - rewrite (Z.compare_antisym ey ex).
    destruct (ey ?= ex)%Z; simpl; try discriminate; try reflexivity.
    rewrite !Pos.compare_cont_spec. rewrite (Pos.compare_antisym my mx). simpl.
    destruct (my ?= mx)%positive; simpl; discriminate || reflexivity.
  - rewrite (Z.compare_antisym ey ex).
    destruct (ey ?= ex)%Z; simpl; try discriminate; try reflexivity.
    rewrite !Pos.compare_cont_spec. rewrite (Pos.compare_antisym my mx). simpl.
    destruct (my ?= mx)%positive; simpl; discriminate || reflexivity.
Qed.

Lemma signal_short s lv p c n :
  at_anchor c = true -> (Close p <? Open p)%float = true ->
  calculate_position_size s (Open c) (High p) = Ok n ->
  signal s lv p c =
  Ok (set_position s (-1),
      entered c (High p) (Open c - (High p - Open c) * 10)%float n).
Proof.
  unfold at_anchor. intros Ha Hb Hn.
  rewrite signal_unfold, Ha, (@ltb_irrefl_swap (Close p) (Open p) Hb), Hb, Hn. reflexivity.
Qed.





Lemma signal_breakout s lv p c d sl pt n :
  at_anchor c = true -> breakout p c d sl pt ->
  calculate_position_size s (Open c) sl = Ok n ->
  signal s lv p c = Ok (set_position s d, entered c sl pt n).
Proof.
  intros Ha [(Hb & -> & -> & ->) | (Hb & -> & -> & ->)] Hn.
  - apply signal_long; assumption.
  - apply signal_short; assumption.
Qed.

(** C4 (amended). The engine keeps one position flag, which is +1 or -1
    while a position is open, so it never holds two positions; but the signal
    has no guard on it: when a candle at the anchor time arrives while a
    position is open and the candle before it is bullish or bearish (and the
    sizer returns), the direction and every entry field of the open position
    are overwritten by the new signal, without a close: the trade log and the
    capital are left as they were. *)
Theorem reentry_overwrites_open_position :
  forall sym cap rp self pre p c s0 l0 d sl pt n,
    __init__ sym cap rp = Ok self ->
    run self (pre ++ [p]) = Ok (s0, l0) ->
    position s0 <> 0%Z ->
    at_anchor c = true ->
    breakout p c d sl pt ->
    calculate_position_size s0 (Open c) sl = Ok n ->
    (position s0 = 1 \/ position s0 = -1)%Z /\
    exists s1,
      signal s0 l0 p c = Ok (s1, entered c sl pt n) /\
      position s1 = d /\
      trades s1 = trades s0 /\
      capital s1 = capital s0 /\
      closed_dirs s1 = closed_dirs s0.
Proof.
  intros sym cap rp self pre p c s0 l0 d sl pt n Hinit Hrun Hopen Ha Hb Hn.
  split.
  - apply wf_run in Hrun; [|eapply init_flat; eauto].
    destruct Hrun as [Hp _]. tauto.
  - exists (set_position s0 d). split; [apply signal_breakout; assumption|].
    simpl; auto.
Qed.

(** C6 (amended). When the sizer returns 0 at an anchor candle with a
    bullish or bearish candle before it, the engine opens the position all
    the same, with position_size = 0; and the exit check of a position of
    size 0 either keeps it open or appends a Trade whose position_size is
    0. *)
Theorem zero_size_position_opened :
  forall s lv p c d sl pt,
    at_anchor c = true ->
    breakout p c d sl pt ->
    calculate_position_size s (Open c) sl = Ok 0%Z ->
    signal s lv p c = Ok (set_position s d, entered c sl pt 0) /\
    forall c',
      process_trade (set_position s d) c' (Open c) sl pt 0 (name c)
        = Ok (set_position s d, false) \/
      exists s' t,
        process_trade (set_position s d) c' (Open c) sl pt 0 (name c) = Ok (s', true) /\
        trades s' = trades s ++ [t] /\
        position_size t = 0%Z /\
        entry_time t = name c /\ exit_time t = name c'.
Proof.
  intros s lv p c d sl pt Ha Hb Hn.
  split; [apply signal_breakout; assumption|].
  intros c'.
  assert (Hd : (d = 1 \/ d = -1)%Z).
  { destruct Hb as [(_ & -> & _) | (_ & -> & _)]; auto. }
  destruct (@process_trade_wf (set_position s d) c' (Open c) sl pt 0 (name c))
    as (s' & b & H); [exact Hd|reflexivity|].
  rewrite H. destruct (process_trade_Ok _ _ _ _ _ _ _ H)
    as [[-> ->] | (-> & _ & x & r & _ & ->)].
  - left; reflexivity.
  - right. eexists _, _. split; [reflexivity|]. simpl. auto.
Qed.

(** ** Entry and exit times *)






(** ** Construction *)




(** ** Sizing at zero risk *)

Lemma SFcompare_Eq_finite s1 m1 e1 s2 m2 e2 :
  SFcompare (S754_finite s1 m1 e1) (S754_finite s2 m2 e2) = Some Eq ->
  s1 = s2 /\ m1 = m2 /\ e1 = e2.
Proof.
  simpl. destruct s1, s2; try discriminate;
    destruct (e1 ?= e2)%Z eqn:Ee; try discriminate;
    rewrite Pos.compare_cont_spec; simpl;
    destruct (m1 ?= m2)%positive eqn:Em; try discriminate; intros _;
    apply Z.compare_eq in Ee; apply Pos.compare_eq in Em; auto.
Qed.

(** The difference of two floats that compare equal is a zero, or a NaN
    (for two infinities). *)
Lemma SFsub_eq x y :
  SFeqb x y = true ->
  (exists s, SF64sub x y = S754_zero s) \/ SF64sub x y = S754_nan.
Proof.
  unfold SFeqb. intros H.
  destruct (SFcompare x y) as [[| |]|] eqn:E; try discriminate. clear H.
  destruct x as [sx|sx| |sx mx ex], y as [sy|sy| |sy my ey];
    try discriminate E;
    try (simpl in E; destruct sx; discriminate E);
    try (simpl in E; destruct sy; discriminate E).
  - left. destruct sx, sy; simpl; eauto.
  - right. destruct sx, sy; simpl in *; try discriminate E; reflexivity.
  - apply SFcompare_Eq_finite in E. destruct E as (-> & -> & ->).
    left. exists false. unfold SF64sub, SFsub. rewrite Z.sub_diag. reflexivity.
Qed.

Lemma int_div_zero n d :
  (exists s, d = S754_zero s) \/ d = S754_nan ->
  F64.int_of_SF (SF64div n (SFabs d)) = Raise OverflowError \/
  F64.int_of_SF (SF64div n (SFabs d)) = Raise ValueError.
Proof.
  intros [[s ->] | ->]; destruct n as [sn|sn| |sn mn en]; simpl; auto.
Qed.

Lemma calculate_position_size_zero_risk s e sl :
  (e =? sl)%float = true ->
  calculate_position_size s e sl = Raise OverflowError \/
  calculate_position_size s e sl = Raise ValueError.
Proof.
  intros H. rewrite eqb_spec in H. apply SFsub_eq in H.
  unfold calculate_position_size, F64.int.
  rewrite div_spec, abs_spec, sub_spec.
  apply int_div_zero. exact H.
Qed.

Lemma loop_app a : forall b p s lv,
  loop p (a ++ b) s lv =
  bind (loop p a s lv) (fun sl => loop (last a p) b (fst sl) (snd sl)).
Proof.
  induction a as [|c a IH]; intros b p s lv; simpl.
  - reflexivity.
  - destruct (step s lv p c) as [[s1 l1]|]; simpl; [|reflexivity].
    rewrite IH. destruct a as [|c0 a]; [reflexivity|].
    rewrite (last_cons_default a c0 c p). reflexivity.
Qed.

Lemma run_app s pre p rest :
  run s (pre ++ p :: rest) =
  bind (run s (pre ++ [p])) (fun sl => loop p rest (fst sl) (snd sl)).
Proof.
  destruct pre as [|c0 pre]; simpl.
  - reflexivity.
  - change (pre ++ p :: rest) with (pre ++ [p] ++ rest). rewrite app_assoc.
    rewrite loop_app, last_last. reflexivity.
Qed.

(** C5 (amended). At a candle at the anchor time whose entry price equals
    the stop level, after a bullish or bearish candle, position sizing
    divides by a zero risk and [int] raises on the resulting infinity
    ([OverflowError]) or NaN ([ValueError]); the exception ends [backtest],
    which returns neither a log nor a capital, so no zero-risk trade is ever
    opened. *)
Theorem zero_risk_aborts :
  forall self pre p c rest s lv d sl pt,
    run self (pre ++ [p]) = Ok (s, lv) ->
    at_anchor c = true ->
    breakout p c d sl pt ->
    (Open c =? sl)%float = true ->
    exists e,
      (e = OverflowError \/ e = ValueError) /\
      calculate_position_size s (Open c) sl = Raise e /\
      backtest self (pre ++ p :: c :: rest) = Raise e.
Proof.
  intros self pre p c rest s lv d sl pt Hrun Ha Hb Hz.
  assert (He : exists e, (e = OverflowError \/ e = ValueError) /\
                         calculate_position_size s (Open c) sl = Raise e).
  { destruct (@calculate_position_size_zero_risk s (Open c) sl Hz) as [H | H]; eauto. }
  destruct He as (e & He & Hsz). exists e. split; [assumption|]. split; [assumption|].
  unfold backtest. rewrite run_app, Hrun. simpl. unfold step.
  rewrite signal_unfold. unfold at_anchor in Ha. rewrite Ha.
  destruct Hb as [(Hb & _ & -> & _) | (Hb & _ & -> & _)].
  - rewrite Hb, Hsz. reflexivity.
  - rewrite (@ltb_irrefl_swap (Close p) (Open p) Hb), Hb, Hsz. reflexivity.
Qed.

(** ** Sizing as a floor *)

Lemma binary_round_aux_sign m e l : sign_false (binary_round_aux prec emax false m e l).
Proof.
  unfold binary_round_aux.
  destruct (shr_fexp prec emax m e l) as [mrs' e'].
  destruct (shr_fexp prec emax _ e' loc_Exact) as [mrs'' e''].
  destruct (shr_m mrs''); [reflexivity| |exact I].
  destruct (Z.leb _ _); reflexivity.
Qed.

Lemma SFmul_sign x y : sign_false x -> sign_false y -> sign_false (SF64mul x y).
Proof.
  destruct x as [sx|sx| |sx mx ex], y as [sy|sy| |sy my ey]; simpl;
    intros Hx Hy; subst; simpl; auto.
  apply binary_round_aux_sign.
Qed.

Lemma SFdiv_sign x y : sign_false x -> sign_false y -> sign_false (SF64div x y).
Proof.
  destruct x as [sx|sx| |sx mx ex], y as [sy|sy| |sy my ey]; simpl;
    intros Hx Hy; subst; simpl; auto.
  destruct (SFdiv_core_binary prec emax (Zpos mx) ex (Zpos my) ey) as [[mz ez] lz].
  apply binary_round_aux_sign.
Qed.

Lemma SFabs_sign x : sign_false (SFabs x).
Proof. destruct x; simpl; auto. Qed.

Lemma positive_sign x : (0 <? x)%float = true -> sign_false (Prim2SF x).
Proof.
  rewrite ltb_spec. change (Prim2SF 0) with (S754_zero false).
  destruct (Prim2SF x) as [s|s| |s m e]; simpl; try discriminate; auto;
    destruct s; simpl; discriminate || reflexivity.
Qed.





(** ** The engine on the sample series *)

(** Scenario A of the specification: long at 102 with stop 99 and target
    132, 83 units, closed at the target. *)
Lemma capital_conservation_witness :
  __init__ "SPY" 25000 risk_1pct = Ok (engine 25000 risk_1pct) /\
  backtest (engine 25000 risk_1pct) [bull_open; quiet_anchor; rally]
    = Ok ([mk_Trade 102 132 "Profit" 83 (stamp 1 9 35) (stamp 1 9 40)], 27490%float) /\
  exists dirs,
    (exists s lv,
        run (engine 25000 risk_1pct) [bull_open; quiet_anchor; rally] = Ok (s, lv) /\
        [mk_Trade 102 132 "Profit" 83 (stamp 1 9 35) (stamp 1 9 40)] = trades s /\
        27490%float = capital s /\ dirs = closed_dirs s) /\
    List.length dirs = 1%nat /\
    Forall (fun d => d = 1 \/ d = -1)%Z dirs /\
    27490%float =
    fold_left
      (fun c td =>
         (c + (exit_price (fst td) - entry_price (fst td))
              * F64.nearest (position_size (fst td))
              * F64.nearest (snd td))%float)
      (combine [mk_Trade 102 132 "Profit" 83 (stamp 1 9 35) (stamp 1 9 40)] dirs)
      25000%float.
Proof.
  split; [reflexivity|]. split; [reflexivity|].
  exact (@capital_conservation "SPY"%string 25000%float risk_1pct
           (engine 25000 risk_1pct) [bull_open; quiet_anchor; rally]
           [mk_Trade 102 132 "Profit" 83 (stamp 1 9 35) (stamp 1 9 40)] 27490%float
           eq_refl eq_refl).
Defined.



Lemma stop_loss_priority_witness :
  at_exit_check (engine 25000 risk_1pct) [] bull_open wide_anchor
    (set_position (engine 25000 risk_1pct) 1) (entered wide_anchor 99 132 83) /\
  (Low wide_anchor <=? 99)%float = true /\ (High wide_anchor >=? 132)%float = true /\
  exists s' t,
    run (engine 25000 risk_1pct) [bull_open; wide_anchor]
      = Ok (s', entered wide_anchor 99 132 83) /\
    trades s' = [] ++ [t] /\
    result t = "Loss"%string /\
    exit_price t = 99%float /\
    exit_time t = name wide_anchor /\
    Some 102%float = Some (entry_price t) /\
    Some 83%Z = Some (position_size t) /\
    position s' = 0%Z.
Proof.
  assert (H : at_exit_check (engine 25000 risk_1pct) [] bull_open wide_anchor
                (set_position (engine 25000 risk_1pct) 1) (entered wide_anchor 99 132 83)).
  { exists (engine 25000 risk_1pct), no_locals. split; reflexivity. }
  split; [exact H|]. split; [reflexivity|]. split; [reflexivity|].
  exact (@stop_loss_priority "SPY"%string 25000%float risk_1pct (engine 25000 risk_1pct)
           [] bull_open wide_anchor (set_position (engine 25000 risk_1pct) 1)
           (entered wide_anchor 99 132 83) 99%float 132%float
           eq_refl H eq_refl eq_refl
           (or_introl (conj eq_refl (conj eq_refl eq_refl)))).
Defined.

Lemma reentry_overwrites_open_position_witness :
  run (engine 25000 risk_1pct) ([bull_open; quiet_anchor] ++ [next_bear_open])
    = Ok (set_position (engine 25000 risk_1pct) 1, long_102) /\
  breakout next_bear_open next_anchor (-1) 106 51 /\
  (position (set_position (engine 25000 risk_1pct) 1) = 1 \/
   position (set_position (engine 25000 risk_1pct) 1) = -1)%Z /\
  exists s1,
    signal (set_position (engine 25000 risk_1pct) 1) long_102 next_bear_open next_anchor
      = Ok (s1, entered next_anchor 106 51 50) /\
    position s1 = (-1)%Z /\
    trades s1 = [] /\
    capital s1 = 25000%float /\
    closed_dirs s1 = [].
Proof.
  assert (Hb : breakout next_bear_open next_anchor (-1) 106 51).
  { right. repeat split; reflexivity. }
  split; [reflexivity|]. split; [exact Hb|].
  assert (Hopen : position (set_position (engine 25000 risk_1pct) 1) <> 0%Z)
    by discriminate.
  exact (@reentry_overwrites_open_position "SPY"%string 25000%float risk_1pct
           (engine 25000 risk_1pct) [bull_open; quiet_anchor] next_bear_open next_anchor
           (set_position (engine 25000 risk_1pct) 1) long_102 (-1)%Z 106%float 51%float 50%Z
           eq_refl eq_refl Hopen eq_refl Hb eq_refl).
Defined.

(** A long position of 83 units is open when the anchor time recurs on the
    next day after a bearish candle: the engine re-enters; the position
    becomes a short one of 50 units with new entry fields, and the long one is
    gone without a trade in the log. *)
Lemma reentry_counterexample :
  run (engine 25000 risk_1pct) [bull_open; quiet_anchor; next_bear_open]
    = Ok (set_position (engine 25000 risk_1pct) 1, long_102) /\
  at_anchor next_anchor = true /\
  run (engine 25000 risk_1pct) [bull_open; quiet_anchor; next_bear_open; next_anchor]
    = Ok (set_position (engine 25000 risk_1pct) (-1), entered next_anchor 106 51 50) /\
  backtest (engine 25000 risk_1pct) [bull_open; quiet_anchor; next_bear_open; next_anchor]
    = Ok ([], 25000%float).
Proof. repeat split; reflexivity. Qed.

Lemma zero_risk_aborts_witness :
  run (engine 25000 risk_1pct) ([] ++ [bull_open]) = Ok (engine 25000 risk_1pct, no_locals) /\
  at_anchor flat_risk_anchor = true /\
  breakout bull_open flat_risk_anchor 1 99 99 /\
  (Open flat_risk_anchor =? 99)%float = true /\
  exists e,
    (e = OverflowError \/ e = ValueError) /\
    calculate_position_size (engine 25000 risk_1pct) (Open flat_risk_anchor) 99 = Raise e /\
    backtest (engine 25000 risk_1pct) ([] ++ bull_open :: flat_risk_anchor :: [rally])
      = Raise e.
Proof.
  assert (Hb : breakout bull_open flat_risk_anchor 1 99 99).
  { left. repeat split; reflexivity. }
  split; [reflexivity|]. split; [reflexivity|]. split; [exact Hb|]. split; [reflexivity|].
  exact (@zero_risk_aborts (engine 25000 risk_1pct) [] bull_open flat_risk_anchor [rally]
           (engine 25000 risk_1pct) no_locals 1%Z 99%float 99%float
           eq_refl eq_refl Hb eq_refl).
Defined.

(** The anchor candle opens at the stop level (risk 0) after a bullish
    candle: the session is not skipped, [backtest] raises and returns
    nothing, although a later candle would have been processed. *)
Lemma zero_risk_counterexample :
  at_anchor flat_risk_anchor = true /\
  (Open flat_risk_anchor - Low bull_open =? 0)%float = true /\
  ((capital (engine 25000 risk_1pct) * risk_percent (engine 25000 risk_1pct))
   / abs (Open flat_risk_anchor - Low bull_open))%float = infinity /\
  backtest (engine 25000 risk_1pct) [bull_open; flat_risk_anchor; rally]
    = Raise OverflowError.
Proof. repeat split; reflexivity. Qed.

Lemma zero_size_position_opened_witness :
  at_anchor small_anchor = true /\
  breakout bull_open small_anchor 1 99 110 /\
  calculate_position_size (engine 50 risk_1pct) (Open small_anchor) 99 = Ok 0%Z /\
  signal (engine 50 risk_1pct) no_locals bull_open small_anchor
    = Ok (set_position (engine 50 risk_1pct) 1, entered small_anchor 99 110 0) /\
  forall c',
    process_trade (set_position (engine 50 risk_1pct) 1) c' (Open small_anchor) 99 110 0
      (name small_anchor)
      = Ok (set_position (engine 50 risk_1pct) 1, false) \/
    exists s' t,
      process_trade (set_position (engine 50 risk_1pct) 1) c' (Open small_anchor) 99 110 0
        (name small_anchor) = Ok (s', true) /\
      trades s' = trades (engine 50 risk_1pct) ++ [t] /\
      position_size t = 0%Z /\
      entry_time t = name small_anchor /\ exit_time t = name c'.
Proof.
  assert (Hb : breakout bull_open small_anchor 1 99 110).
  { left. repeat split; reflexivity. }
  split; [reflexivity|]. split; [exact Hb|]. split; [reflexivity|].
  exact (@zero_size_position_opened (engine 50 risk_1pct) no_locals bull_open small_anchor
           1%Z 99%float 110%float eq_refl Hb eq_refl).
Defined.

(** Scenario D of the specification with a capital of 50: the size is
    int(0.5 / 1) = 0, the position is opened all the same, and its close
    logs a trade of 0 units. *)
Lemma zero_size_counterexample :
  at_anchor small_anchor = true /\
  calculate_position_size (engine 50 risk_1pct) (Open small_anchor) (Low bull_open) = Ok 0%Z /\
  run (engine 50 risk_1pct) [bull_open; small_anchor]
    = Ok (set_position (engine 50 risk_1pct) 1, entered small_anchor 99 110 0) /\
  backtest (engine 50 risk_1pct) [bull_open; small_anchor; sell_off]
    = Ok ([mk_Trade 100 99 "Loss" 0 (stamp 1 9 35) (stamp 1 9 40)], 50%float).
Proof. repeat split; reflexivity. Qed.





Lemma open_position_dropped_witness :
  open_through (engine 25000 risk_1pct) [bull_open] [quiet_anchor; next_bear_open] = true /\
  exists log cap,
    backtest (engine 25000 risk_1pct) ([bull_open] ++ [quiet_anchor; next_bear_open])
      = Ok (log, cap) /\
    backtest (engine 25000 risk_1pct) [bull_open] = Ok (log, cap) /\
    is_open_after (engine 25000 risk_1pct) ([bull_open] ++ [quiet_anchor; next_bear_open])
      = true.
Proof.
  split; [reflexivity|].
  assert (Hne : [quiet_anchor; next_bear_open] <> []) by discriminate.
  exact (@open_position_dropped (engine 25000 risk_1pct) [bull_open]
           [quiet_anchor; next_bear_open] Hne eq_refl).
Defined.


(** ** More on exits *)

(** The cases of [process_trade], with what a close records. *)
Lemma process_trade_levels :
  forall s c e sl pt n tm s' b,
    process_trade s c e sl pt n tm = Ok (s', b) ->
    (b = false /\ s' = s) \/
    (b = true /\ position s' = 0%Z /\
     touches (position s) sl pt c = true /\
     exists x r,
       ((x = sl /\ r = "Loss"%string) \/ (x = pt /\ r = "Profit"%string)) /\
       trades s' = trades s ++ [mk_Trade e x r n tm (name c)] /\
       capital s' = (capital s + realized (mk_Trade e x r n tm (name c)) (position s))%float).
Proof.
  unfold process_trade, touches. intros s c e sl pt n tm s' b H.
  destruct (position s =? 1)%Z; [|destruct (position s =? -1)%Z].
  - destruct (Low c <=? sl)%float; [|destruct (High c >=? pt)%float].
    + bind_inv H. inversion H; subst. apply close_trade_Ok in Hm.
      destruct Hm as [_ ->]. right. simpl. repeat split.
      exists sl, "Loss"%string. auto.
    + bind_inv H. inversion H; subst. apply close_trade_Ok in Hm.
      destruct Hm as [_ ->]. right. simpl. repeat split.
      exists pt, "Profit"%string. auto.
    + inversion H; subst. auto.
  - destruct (High c >=? sl)%float; [|destruct (Low c <=? pt)%float].
    + bind_inv H. inversion H; subst. apply close_trade_Ok in Hm.
      destruct Hm as [_ ->]. right. simpl. repeat split.
      exists sl, "Loss"%string. auto.
    + bind_inv H. inversion H; subst. apply close_trade_Ok in Hm.
      destruct Hm as [_ ->]. right. simpl. repeat split.
      exists pt, "Profit"%string. auto.
    + inversion H; subst. auto.
  - inversion H; subst. auto.
Qed.

(** X1. What [process_trade] answers and does: [False] leaves the object
    untouched; [True] means exactly one trade was appended, carrying the
    entry fields it was given and the candle's timestamp, filled at the stop
    level as a "Loss" or at the target level as a "Profit" (never at a price
    of the candle), and the position is flat afterwards. *)
Theorem process_trade_fills_at_level :
  forall s c e sl pt n tm s' b,
    process_trade s c e sl pt n tm = Ok (s', b) ->
    (b = false /\ s' = s) \/
    (b = true /\ position s' = 0%Z /\
     touches (position s) sl pt c = true /\
     exists x r,
       ((x = sl /\ r = "Loss"%string) \/ (x = pt /\ r = "Profit"%string)) /\
       trades s' = trades s ++ [mk_Trade e x r n tm (name c)] /\
       capital s' = (capital s + realized (mk_Trade e x r n tm (name c)) (position s))%float).
Proof. exact process_trade_levels. Qed.

(** X2. Profit-target exit: whenever a position is open at the exit check
    of a candle that does not touch the stop but reaches the target, that
    iteration closes the position at the profit-target price with result
    "Profit" (long and short alike). *)
Theorem profit_target_exit :
  forall sym cap rp self pre p c s lv sl pt,
    __init__ sym cap rp = Ok self ->
    at_exit_check self pre p c s lv ->
    lv_stop_loss lv = Some sl ->
    lv_profit_target lv = Some pt ->
    (position s = 1%Z /\ (Low c <=? sl)%float = false /\ (High c >=? pt)%float = true) \/
    (position s = (-1)%Z /\ (High c >=? sl)%float = false /\ (Low c <=? pt)%float = true) ->
    exists s' t,
      run self (pre ++ [p; c]) = Ok (s', lv) /\
      trades s' = trades s ++ [t] /\
      result t = "Profit"%string /\
      exit_price t = pt /\
      exit_time t = name c /\
      lv_entry_price lv = Some (entry_price t) /\
      lv_position_size lv = Some (position_size t) /\
      position s' = 0%Z.
Proof.
  intros sym cap rp self pre p c s lv sl pt Hinit (s0 & l0 & Hrun & Hsig) Hsl Hpt Hboth.
  assert (Hwf : wf s lv).
  { eapply wf_signal; [exact Hsig|]. eapply wf_run; [exact Hrun|].
    eapply init_flat; eauto. }
  destruct Hwf as [_ Hb].
  destruct Hb as (e & sl' & pt' & n & tm & Hbd & Hn).
  { destruct Hboth as [(H & _) | (H & _)]; rewrite H; discriminate. }
  unfold bound in Hbd. subst lv. simpl in Hsl, Hpt.
  inversion Hsl; subst sl'. inversion Hpt; subst pt'. clear Hsl Hpt.
  assert (Hp : (position s = 1 \/ position s = -1)%Z) by tauto.
  destruct (@close_trade_wf s pt "Profit"%string n e tm (name c) Hp Hn) as (s' & Hc & _ & Hs').
  exists s', (mk_Trade e pt "Profit" n tm (name c)).
  split; [|subst s'; simpl; repeat split; reflexivity].
  rewrite run_snoc, Hrun. simpl. unfold step. rewrite Hsig. simpl.
  unfold check_exit, process_trade. cbn [load bind lv_entry_price lv_stop_loss
    lv_profit_target lv_position_size lv_entry_time].
  destruct Hboth as [(H & H1 & H2) | (H & H1 & H2)]; rewrite H; cbn [Z.eqb negb Pos.eqb bind];
    rewrite H1, H2, Hc; reflexivity.
Qed.

Lemma step_uneventful s lv p c e sl pt n tm :
  bound lv e sl pt n tm -> uneventful (position s) sl pt c = true ->
  step s lv p c = Ok (s, lv).
Proof.
  unfold bound, uneventful, touches. intros -> H.
  apply andb_prop in H. destruct H as [Ha Ht].
  apply negb_true_iff in Ha, Ht. unfold at_anchor in Ha.
  unfold step. rewrite signal_unfold, Ha. simpl.
  unfold check_exit. destruct (position s =? 0)%Z eqn:E0; simpl; [reflexivity|].
  unfold process_trade.
  destruct (position s =? 1)%Z; [|destruct (position s =? -1)%Z]; try reflexivity;
    apply orb_false_iff in Ht; destruct Ht as [-> ->]; reflexivity.
Qed.

(** X3. Holding: over any stretch of candles none of which is at the anchor
    time or touches the stop or the target of the open position, the loop
    leaves the object and the locals exactly as they were (no trade, no
    change of capital, the position stays open with the same levels). *)
Theorem position_held :
  forall rest p s lv e sl pt n tm,
    bound lv e sl pt n tm ->
    forallb (uneventful (position s) sl pt) rest = true ->
    loop p rest s lv = Ok (s, lv).
Proof.
  induction rest as [|c rest IH]; intros p s lv e sl pt n tm Hb H; [reflexivity|].
  simpl in H. apply andb_prop in H. destruct H as [Hc Hrest].
  simpl. rewrite (step_uneventful s p c Hb Hc). simpl.
  eapply IH; eauto.
Qed.

(** ** The trade log of one run *)

Lemma signal_entry_time_anchor s lv p c s' lv' :
  signal s lv p c = Ok (s', lv') ->
  lv_entry_time lv' = lv_entry_time lv \/
  (at_anchor c = true /\ lv_entry_time lv' = Some (name c)).
Proof.
  rewrite signal_unfold. unfold at_anchor. intros H.
  destruct (time_eqb _ _); [|inversion H; auto].
  destruct (Close p >? Open p)%float; [|destruct (Close p <? Open p)%float].
  - bind_inv H. inversion H; subst. auto.
  - bind_inv H. inversion H; subst. auto.
  - destruct (position s =? 0)%Z; inversion H; subst; auto.
Qed.

(** One iteration, with what a close records. *)
Lemma step_levels s lv p c s' lv' :
  step s lv p c = Ok (s', lv') ->
  exists s1, signal s lv p c = Ok (s1, lv') /\
    (s' = s1 \/
     exists e sl pt n tm x r, bound lv' e sl pt n tm /\
       (r = "Loss"%string \/ r = "Profit"%string) /\
       trades s' = trades s1 ++ [mk_Trade e x r n tm (name c)]).
Proof.
  unfold step. intros H.
  bind_inv H. destruct a as [s1 l1]. bind_inv H. inversion H; subst. clear H.
  exists s1. split; [assumption|].
  unfold check_exit in Hm0.
  destruct (negb _); [|inversion Hm0; auto].
  destruct lv' as [[e|] [sl|] [pt|] [n|] [tm|]]; simpl in Hm0; try discriminate.
  bind_inv Hm0. destruct a as [s2 b]. inversion Hm0; subst.
  apply process_trade_levels in Hm1.
  destruct Hm1 as [[_ ->] | (_ & _ & _ & x & r & Hxr & Ht & _)]; [auto|].
  right. exists e, sl, pt, n, tm, x, r. split; [reflexivity|]. split; [|assumption].
  destruct Hxr as [[_ ->] | [_ ->]]; auto.
Qed.

Lemma journal_step all self k s lv p c s' lv' :
  step s lv p c = Ok (s', lv') -> In c all ->
  journal all self k s lv -> journal all self (S k) s' lv'.
Proof.
  intros H Hin [(new & Hnew & Hlen & Hall) Htm].
  apply step_levels in H. destruct H as (s1 & Hs & H).
  assert (Htm' : forall tm, lv_entry_time lv' = Some tm -> anchored all tm).
  { intros tm E. destruct (signal_entry_time_anchor _ _ _ _ Hs) as [E' | [Ha E']];
      rewrite E' in E.
    - apply Htm; assumption.
    - inversion E; subst. exists c. auto. }
  apply signal_Ok in Hs. destruct Hs as (d & -> & _). simpl in H.
  split; [|assumption].
  destruct H as [-> | (e & sl & pt & n & tm & x & r & Hbd & Hr & Ht)].
  - exists new. simpl. repeat split; auto.
  - exists (new ++ [mk_Trade e x r n tm (name c)]). split; [|split].
    + rewrite Ht, Hnew, app_assoc. reflexivity.
    + rewrite length_app. simpl. lia.
    + apply Forall_app. split; [assumption|]. constructor; [|constructor].
      unfold bound in Hbd. subst lv'. split; [exact Hr|]. split; simpl.
      * apply Htm'. reflexivity.
      * exists c. auto.
Qed.

Lemma journal_loop all self rest : forall k p s lv s' lv',
  loop p rest s lv = Ok (s', lv') ->
  (forall c, In c rest -> In c all) ->
  journal all self k s lv -> journal all self (k + List.length rest) s' lv'.
Proof.
  induction rest as [|c rest IH]; simpl; intros k p s lv s' lv' H Hin Hj.
  - inversion H; subst. rewrite Nat.add_0_r. assumption.
  - bind_inv H. destruct a as [s1 l1].
    replace (k + S (List.length rest))%nat with (S k + List.length rest)%nat by lia.
    eapply IH; [exact H|auto|]. eapply journal_step; eauto.
Qed.

Lemma journal_run self data s lv :
  run self data = Ok (s, lv) ->
  journal (tl data) self (List.length (tl data)) s lv.
Proof.
  destruct data as [|c0 rest]; simpl; intros H.
  - inversion H; subst. split; [|discriminate].
    exists []. rewrite app_nil_r. repeat split; auto.
  - apply (@journal_loop rest self rest 0%nat c0 self no_locals s lv H); [auto|].
    split; [|discriminate].
    exists []. rewrite app_nil_r. repeat split; auto.
Qed.

(** X4. The log only grows, by at most one trade per iteration: the log
    [backtest] returns is the log the object already had followed by at most
    len(data) - 1 new trades (so a second call on the same object returns
    the trades of the first call again, before its own), and every new trade
    is a "Loss" or a "Profit". *)
Theorem log_grows_by_at_most_one_per_candle :
  forall self data log final,
    backtest self data = Ok (log, final) ->
    exists new,
      log = trades self ++ new /\
      (List.length new <= List.length data - 1)%nat /\
      Forall (fun t => result t = "Loss"%string \/ result t = "Profit"%string) new.
Proof.
  intros self data log final H. unfold backtest in H.
  bind_inv H. destruct a as [s lv]. inversion H; subst. clear H.
  apply journal_run in Hm. destruct Hm as [(new & Hnew & Hlen & Hall) _].
  exists new. split; [assumption|]. split.
  - destruct data; simpl in *; lia.
  - eapply Forall_impl; [|exact Hall]. intros t Ht. apply Ht.
Qed.

(** X5. Every trade added by a call of [backtest] was entered at a candle
    of the series at the anchor time (09:35) and closed at a candle of the
    series; the first candle of the series is neither. *)
Theorem trades_enter_at_anchor_candles :
  forall self data log final,
    backtest self data = Ok (log, final) ->
    exists new,
      log = trades self ++ new /\
      Forall (fun t =>
                (exists c, In c (tl data) /\ at_anchor c = true /\ entry_time t = name c) /\
                (exists c, In c (tl data) /\ exit_time t = name c)) new.
Proof.
  intros self data log final H. unfold backtest in H.
  bind_inv H. destruct a as [s lv]. inversion H; subst. clear H.
  apply journal_run in Hm. destruct Hm as [(new & Hnew & Hlen & Hall) _].
  exists new. split; [assumption|].
  eapply Forall_impl; [|exact Hall]. intros t (_ & Ha & Hx). split; assumption.
Qed.

(** ** Exceptions of a run *)

(** X6. A stale position: [backtest] called on an object whose position is
    not flat (left open by an earlier call) starts with unassigned locals, so
    unless the second candle is at the anchor time after a bullish or bearish
    first candle, the exit check reads [entry_price] before any assignment and
    the call raises [UnboundLocalError]. *)
Theorem stale_position_raises :
  forall self p c rest,
    position self <> 0%Z ->
    at_anchor c = false \/
    ((Close p >? Open p)%float = false /\ (Close p <? Open p)%float = false) ->
    backtest self (p :: c :: rest) = Raise UnboundLocalError.
Proof.
  intros self p c rest Hopen Hc.
  apply Z.eqb_neq in Hopen.
  unfold backtest, run. cbn [loop]. unfold step.
  rewrite signal_unfold. unfold at_anchor in Hc.
  destruct Hc as [-> | [-> ->]].
  - cbn [bind]. unfold check_exit. rewrite Hopen. reflexivity.
  - rewrite Hopen. destruct (time_eqb _ _); cbn [bind];
      unfold check_exit; rewrite Hopen; reflexivity.
Qed.

Lemma calculate_position_size_Raise s e sl x :
  calculate_position_size s e sl = Raise x -> x = OverflowError \/ x = ValueError.
Proof.
  unfold calculate_position_size, F64.int.
  destruct (Prim2SF _); simpl; intros H; inversion H; auto.
Qed.

Lemma step_Raise s lv p c x :
  wf s lv -> step s lv p c = Raise x ->
  at_anchor c = true /\
  (((Close p >? Open p)%float = true /\
    calculate_position_size s (Open c) (Low p) = Raise x) \/
   ((Close p <? Open p)%float = true /\
    calculate_position_size s (Open c) (High p) = Raise x)).
Proof.
  intros Hwf H. unfold step in H.
  destruct (signal s lv p c) as [[s1 l1]|x'] eqn:Hs.
  - exfalso. apply wf_signal in Hs; [|assumption].
    destruct (@check_exit_wf s1 l1 c Hs) as (s2 & H2 & _).
    simpl in H. rewrite H2 in H. discriminate.
  - simpl in H. inversion H; subst x'. clear H.
    rewrite signal_unfold in Hs. unfold at_anchor.
    destruct (time_eqb _ _); [|discriminate]. split; [reflexivity|].
    destruct (Close p >? Open p)%float; [|destruct (Close p <? Open p)%float].
    + left. split; [reflexivity|].
      destruct (calculate_position_size s (Open c) (Low p)); [discriminate|].
      simpl in Hs. congruence.
    + right. split; [reflexivity|].
      destruct (calculate_position_size s (Open c) (High p)); [discriminate|].
      simpl in Hs. congruence.
    + destruct (position s =? 0)%Z; discriminate.
Qed.

Lemma loop_Raise self rest : forall pre p s lv x,
  run self (pre ++ [p]) = Ok (s, lv) -> wf s lv ->
  loop p rest s lv = Raise x ->
  exists pre' p' c rest' s' lv' sl,
    pre ++ p :: rest = pre' ++ p' :: c :: rest' /\
    run self (pre' ++ [p']) = Ok (s', lv') /\
    at_anchor c = true /\
    (((Close p' >? Open p')%float = true /\ sl = Low p') \/
     ((Close p' <? Open p')%float = true /\ sl = High p')) /\
    calculate_position_size s' (Open c) sl = Raise x.
Proof.
  induction rest as [|c rest IH]; simpl; intros pre p s lv x Hrun Hwf H; [discriminate|].
  destruct (step s lv p c) as [[s1 l1]|x'] eqn:Hs; simpl in H.
  - assert (Hrun' : run self ((pre ++ [p]) ++ [c]) = Ok (s1, l1)).
    { rewrite <- app_assoc. simpl app. rewrite run_snoc, Hrun. exact Hs. }
    destruct (IH (pre ++ [p]) c s1 l1 x Hrun' (@wf_step s lv p c s1 l1 Hs Hwf) H)
      as (pre' & p' & c' & rest' & s' & lv' & sl & Hd & Hr & Ha & Hb & Hz).
    exists pre', p', c', rest', s', lv', sl. rewrite <- app_assoc in Hd. auto.
  - inversion H; subst x'. clear H.
    apply step_Raise in Hs; [|assumption]. destruct Hs as [Ha Hs].
    destruct Hs as [[Hb Hz] | [Hb Hz]].
    + exists pre, p, c, rest, s, lv, (Low p). auto 8.
    + exists pre, p, c, rest, s, lv, (High p). auto 8.
Qed.

(** X7. Where a fresh run can fail: [backtest] on a flat object raises
    nothing but [OverflowError] or [ValueError], and only from the position
    sizer, called at a candle at the anchor time that follows a bullish or
    bearish candle; in particular its locals are never read before they are
    assigned, and closing a trade never fails. *)
Theorem fresh_run_raises_only_from_sizing :
  forall self data x,
    position self = 0%Z ->
    backtest self data = Raise x ->
    (x = OverflowError \/ x = ValueError) /\
    exists pre p c rest s lv sl,
      data = pre ++ p :: c :: rest /\
      run self (pre ++ [p]) = Ok (s, lv) /\
      at_anchor c = true /\
      (((Close p >? Open p)%float = true /\ sl = Low p) \/
       ((Close p <? Open p)%float = true /\ sl = High p)) /\
      calculate_position_size s (Open c) sl = Raise x.
Proof.
  intros self data x Hflat H. unfold backtest in H.
  destruct (run self data) as [[s lv]|x'] eqn:Hr; [discriminate|].
  simpl in H. inversion H; subst x'. clear H.
  destruct data as [|c0 rest]; [discriminate|]. simpl in Hr.
  destruct (@loop_Raise self rest [] c0 self no_locals x) as
    (pre & p & c & rest' & s & lv & sl & Hd & Hrun & Ha & Hb & Hz);
    [reflexivity|apply wf_flat; assumption|assumption|].
  split; [eapply calculate_position_size_Raise; eauto|].
  exists pre, p, c, rest', s, lv, sl. auto.
Qed.

(** ** More on sizing *)

Lemma int_of_SF_sign x n : sign_false x -> F64.int_of_SF x = Ok n -> (0 <= n)%Z.
Proof.
  destruct x as [s|s| |s m e]; simpl; intros Hs H; inversion H; subst; [lia|].
  simpl. apply Z.shiftl_nonneg. lia.
Qed.

(** X8. With a positive capital and a positive risk percentage the position
    sizer never returns a negative size, whatever the two prices. *)
Theorem position_size_nonnegative :
  forall s e sl n,
    (0 <? capital s)%float = true ->
    (0 <? risk_percent s)%float = true ->
    calculate_position_size s e sl = Ok n ->
    (0 <= n)%Z.
Proof.
  intros s e sl n Hc Hr H. unfold calculate_position_size, F64.int in H.
  eapply int_of_SF_sign; [|exact H].
  rewrite div_spec, mul_spec, abs_spec.
  apply SFdiv_sign; [apply SFmul_sign; apply positive_sign; assumption|].
  apply SFabs_sign.
Qed.

Lemma SFabs_binary_round_aux s1 s2 m e l :
  SFabs (binary_round_aux prec emax s1 m e l) = SFabs (binary_round_aux prec emax s2 m e l).
Proof.
  unfold binary_round_aux.
  destruct (shr_fexp prec emax m e l) as [mrs' e'].
  destruct (shr_fexp prec emax _ e' loc_Exact) as [mrs'' e''].
  destruct (shr_m mrs''); [reflexivity| |reflexivity].
  destruct (Z.leb _ _); reflexivity.
Qed.

Lemma SFabs_binary_normalize_opp z e :
  SFabs (binary_normalize prec emax (- z) e false) = SFabs (binary_normalize prec emax z e false).
Proof.
  destruct z as [|m|m]; simpl; [reflexivity| |]; unfold binary_round;
    destruct (shl_align m e _) as [mz ez]; apply SFabs_binary_round_aux.
Qed.

Lemma SFabs_sub_comm x y : SFabs (SF64sub x y) = SFabs (SF64sub y x).
Proof.
  destruct x as [sx|sx| |sx mx ex], y as [sy|sy| |sy my ey]; simpl;
    try reflexivity;
    try (destruct sx, sy; reflexivity).
  rewrite (Z.min_comm ey ex).
  rewrite <- SFabs_binary_normalize_opp. f_equal. f_equal. lia.
Qed.

(** X9. The size depends on the distance between the two prices only: the
    position sizer gives the same answer (the same size, or the same
    exception) when entry price and stop level are exchanged, so a long and a
    short position with the same risk are sized alike. *)
Theorem position_size_symmetric :
  forall s e sl,
    calculate_position_size s e sl = calculate_position_size s sl e.
Proof.
  intros s e sl. unfold calculate_position_size.
  f_equal. f_equal. apply Prim2SF_inj.
  rewrite !abs_spec, !sub_spec. apply SFabs_sub_comm.
Qed.

(** ** Entry and exit on one candle; later candles *)

(** X10. Stop-out on the entry candle: when the candle at the anchor time
    that opens a position (the sizer returning [n]) itself reaches the stop
    (its low is at or below the stop of a long, its high at or above the stop
    of a short), the same iteration closes the position: a "Loss" at the stop
    is logged with entry_time = exit_time = that candle's timestamp, and the
    object is flat again. *)
Theorem stopped_out_on_entry_candle :
  forall self pre p c s0 l0 d sl pt n,
    run self (pre ++ [p]) = Ok (s0, l0) ->
    at_anchor c = true ->
    breakout p c d sl pt ->
    calculate_position_size s0 (Open c) sl = Ok n ->
    (if (d =? 1)%Z then (Low c <=? sl)%float else (High c >=? sl)%float) = true ->
    exists s',
      run self (pre ++ [p; c]) = Ok (s', entered c sl pt n) /\
      trades s' = trades s0 ++ [mk_Trade (Open c) sl "Loss" n (name c) (name c)] /\
      position s' = 0%Z.
Proof.
  intros self pre p c s0 l0 d sl pt n Hrun Ha Hb Hn Htouch.
  assert (Hd : (d = 1 \/ d = -1)%Z).
  { destruct Hb as [(_ & -> & _) | (_ & -> & _)]; auto. }
  assert (Hconv := calculate_position_size_convertible _ _ _ Hn).
  destruct (@close_trade_wf (set_position s0 d) sl "Loss"%string n (Open c)
              (name c) (name c) Hd Hconv) as (s' & Hc & _ & Hs').
  exists s'. split; [|subst s'; simpl; auto].
  rewrite run_snoc, Hrun. simpl. unfold step.
  rewrite (signal_breakout s0 l0 Ha Hb Hn). simpl.
  unfold check_exit, process_trade. simpl.
  destruct Hd as [-> | ->]; simpl in *; rewrite Htouch; simpl in Hc; rewrite Hc; reflexivity.
Qed.

Lemma anchored_incl all all' tm :
  (forall c, In c all -> In c all') -> anchored all tm -> anchored all' tm.
Proof. intros Hi (c & Hc & Ha & Ht). exists c. auto. Qed.

(** X11. No look-ahead: the trades logged while the candles up to [p] were
    processed are never revised by later candles; the log returned on the
    longer series is the log after [p] followed by at most one new trade per
    later candle. *)
Theorem later_candles_only_append :
  forall self pre p rest s lv log final,
    run self (pre ++ [p]) = Ok (s, lv) ->
    backtest self (pre ++ p :: rest) = Ok (log, final) ->
    exists new,
      log = trades s ++ new /\
      (List.length new <= List.length rest)%nat.
Proof.
  intros self pre p rest s lv log final Hrun H. unfold backtest in H.
  rewrite run_app, Hrun in H. simpl in H.
  bind_inv H. destruct a as [s' lv']. inversion H; subst. clear H.
  assert (Hj : journal (tl (pre ++ p :: rest)) s 0 s lv).
  { split.
    - exists []. rewrite app_nil_r. repeat split; auto.
    - intros tm Htm. apply journal_run in Hrun. destruct Hrun as [_ Hl].
      eapply anchored_incl; [|apply Hl; exact Htm].
      intros c Hc. destruct pre as [|c0 pre]; simpl in *; [contradiction|].
      apply in_app_or in Hc. apply in_or_app.
      destruct Hc as [Hc | Hc]; [auto|]. right. simpl in *. tauto. }
  apply (@journal_loop (tl (pre ++ p :: rest)) s rest 0%nat p s lv s' lv' Hm) in Hj.
  - destruct Hj as [(new & Hnew & Hlen & _) _]. exists new. auto.
  - intros c Hc. destruct pre as [|c0 pre]; simpl; [assumption|].
    apply in_or_app. right. right. assumption.
Qed.

(** ** More runs on the sample series *)

Lemma process_trade_fills_at_level_witness :
  process_trade (set_position (engine 25000 risk_1pct) 1) rally 102 99 132 83 (stamp 1 9 35)
    = Ok (mk_ORBStrategy "SPY" 25000 risk_1pct 27490 0
            [mk_Trade 102 132 "Profit" 83 (stamp 1 9 35) (stamp 1 9 40)] [1%Z], true) /\
  touches 1 99 132 rally = true.
Proof.
  split; [reflexivity|].
  destruct (@process_trade_fills_at_level (set_position (engine 25000 risk_1pct) 1) rally
              102%float 99%float 132%float 83%Z (stamp 1 9 35)
              (mk_ORBStrategy "SPY" 25000 risk_1pct 27490 0
                 [mk_Trade 102 132 "Profit" 83 (stamp 1 9 35) (stamp 1 9 40)] [1%Z])
              true eq_refl) as [[H _] | (_ & _ & H & _)].
  - discriminate H.
  - exact H.
Defined.

Lemma profit_target_exit_witness :
  at_exit_check (engine 25000 risk_1pct) [bull_open] quiet_anchor rally
    (set_position (engine 25000 risk_1pct) 1) long_102 /\
  (Low rally <=? 99)%float = false /\ (High rally >=? 132)%float = true /\
  exists s' t,
    run (engine 25000 risk_1pct) ([bull_open] ++ [quiet_anchor; rally]) = Ok (s', long_102) /\
    trades s' = [] ++ [t] /\
    result t = "Profit"%string /\
    exit_price t = 132%float /\
    exit_time t = name rally /\
    Some 102%float = Some (entry_price t) /\
    Some 83%Z = Some (position_size t) /\
    position s' = 0%Z.
Proof.
  assert (H : at_exit_check (engine 25000 risk_1pct) [bull_open] quiet_anchor rally
                (set_position (engine 25000 risk_1pct) 1) long_102).
  { exists (set_position (engine 25000 risk_1pct) 1), long_102. split; reflexivity. }
  split; [exact H|]. split; [reflexivity|]. split; [reflexivity|].
  exact (@profit_target_exit "SPY"%string 25000%float risk_1pct (engine 25000 risk_1pct)
           [bull_open] quiet_anchor rally (set_position (engine 25000 risk_1pct) 1)
           long_102 99%float 132%float
           eq_refl H eq_refl eq_refl
           (or_introl (conj eq_refl (conj eq_refl eq_refl)))).
Defined.

Lemma position_held_witness :
  forallb (uneventful 1 99 132) [next_bear_open] = true /\
  loop quiet_anchor [next_bear_open] (set_position (engine 25000 risk_1pct) 1) long_102
    = Ok (set_position (engine 25000 risk_1pct) 1, long_102).
Proof.
  split; [reflexivity|].
  exact (@position_held [next_bear_open] quiet_anchor
           (set_position (engine 25000 risk_1pct) 1) long_102
           102%float 99%float 132%float 83%Z (stamp 1 9 35) eq_refl eq_refl).
Defined.

Lemma log_grows_witness :
  backtest (engine 25000 risk_1pct) [bull_open; quiet_anchor; rally]
    = Ok ([mk_Trade 102 132 "Profit" 83 (stamp 1 9 35) (stamp 1 9 40)], 27490%float) /\
  exists new,
    [mk_Trade 102 132 "Profit" 83 (stamp 1 9 35) (stamp 1 9 40)] = [] ++ new /\
    (List.length new <= 2)%nat /\
    Forall (fun t => result t = "Loss"%string \/ result t = "Profit"%string) new.
Proof.
  split; [reflexivity|].
  exact (@log_grows_by_at_most_one_per_candle (engine 25000 risk_1pct)
           [bull_open; quiet_anchor; rally]
           [mk_Trade 102 132 "Profit" 83 (stamp 1 9 35) (stamp 1 9 40)] 27490%float eq_refl).
Defined.

Lemma trades_enter_at_anchor_candles_witness :
  backtest (engine 25000 risk_1pct) [bull_open; falling_anchor; rally]
    = Ok ([mk_Trade 102 99 "Loss" 83 (stamp 1 9 35) (stamp 1 9 35)], 24751%float) /\
  exists new,
    [mk_Trade 102 99 "Loss" 83 (stamp 1 9 35) (stamp 1 9 35)] = [] ++ new /\
    Forall (fun t =>
              (exists c, In c [falling_anchor; rally] /\ at_anchor c = true /\
                         entry_time t = name c) /\
              (exists c, In c [falling_anchor; rally] /\ exit_time t = name c)) new.
Proof.
  split; [reflexivity|].
  exact (@trades_enter_at_anchor_candles (engine 25000 risk_1pct)
           [bull_open; falling_anchor; rally]
           [mk_Trade 102 99 "Loss" 83 (stamp 1 9 35) (stamp 1 9 35)] 24751%float eq_refl).
Defined.

(** The object a first call left with its long position open, called again. *)
Lemma stale_position_raises_witness :
  backtest (engine 25000 risk_1pct) [bull_open; quiet_anchor]
    = Ok ([], 25000%float) /\
  run (engine 25000 risk_1pct) [bull_open; quiet_anchor]
    = Ok (set_position (engine 25000 risk_1pct) 1, long_102) /\
  at_anchor rally = false /\
  backtest (set_position (engine 25000 risk_1pct) 1) [quiet_anchor; rally; sell_off]
    = Raise UnboundLocalError.
Proof.
  split; [reflexivity|]. split; [reflexivity|]. split; [reflexivity|].
  assert (Hopen : position (set_position (engine 25000 risk_1pct) 1) <> 0%Z)
    by discriminate.
  exact (@stale_position_raises (set_position (engine 25000 risk_1pct) 1)
           quiet_anchor rally [sell_off] Hopen (or_introl eq_refl)).
Defined.

Lemma fresh_run_raises_only_from_sizing_witness :
  backtest (engine 25000 risk_1pct) [bull_open; flat_risk_anchor; rally]
    = Raise OverflowError /\
  (OverflowError = OverflowError \/ OverflowError = ValueError) /\
  exists pre p c rest s lv sl,
    [bull_open; flat_risk_anchor; rally] = pre ++ p :: c :: rest /\
    run (engine 25000 risk_1pct) (pre ++ [p]) = Ok (s, lv) /\
    at_anchor c = true /\
    (((Close p >? Open p)%float = true /\ sl = Low p) \/
     ((Close p <? Open p)%float = true /\ sl = High p)) /\
    calculate_position_size s (Open c) sl = Raise OverflowError.
Proof.
  split; [reflexivity|].
  exact (@fresh_run_raises_only_from_sizing (engine 25000 risk_1pct)
           [bull_open; flat_risk_anchor; rally] OverflowError eq_refl eq_refl).
Defined.

Lemma position_size_nonnegative_witness :
  calculate_position_size (engine 25000 risk_1pct) 102 99 = Ok 83%Z /\ (0 <= 83)%Z.
Proof.
  split; [reflexivity|].
  exact (@position_size_nonnegative (engine 25000 risk_1pct) 102%float 99%float 83%Z
           eq_refl eq_refl eq_refl).
Defined.

Lemma stopped_out_on_entry_candle_witness :
  breakout bull_open falling_anchor 1 99 132 /\
  (Low falling_anchor <=? 99)%float = true /\
  exists s',
    run (engine 25000 risk_1pct) ([] ++ [bull_open; falling_anchor])
      = Ok (s', entered falling_anchor 99 132 83) /\
    trades s' = trades (engine 25000 risk_1pct)
                ++ [mk_Trade (Open falling_anchor) 99 "Loss" 83 (name falling_anchor)
                      (name falling_anchor)] /\
    position s' = 0%Z.
Proof.
  assert (Hb : breakout bull_open falling_anchor 1 99 132).
  { left. repeat split; reflexivity. }
  split; [exact Hb|]. split; [reflexivity|].
  exact (@stopped_out_on_entry_candle (engine 25000 risk_1pct) [] bull_open falling_anchor
           (engine 25000 risk_1pct) no_locals 1%Z 99%float 132%float 83%Z
           eq_refl eq_refl Hb eq_refl eq_refl).
Defined.

Lemma later_candles_only_append_witness :
  run (engine 25000 risk_1pct) ([bull_open] ++ [falling_anchor])
    = Ok (mk_ORBStrategy "SPY" 25000 risk_1pct 24751 0
            [mk_Trade 102 99 "Loss" 83 (stamp 1 9 35) (stamp 1 9 35)] [1%Z],
          long_102) /\
  exists new,
    [mk_Trade 102 99 "Loss" 83 (stamp 1 9 35) (stamp 1 9 35)]
    = [mk_Trade 102 99 "Loss" 83 (stamp 1 9 35) (stamp 1 9 35)] ++ new /\
    (List.length new <= 2)%nat.
Proof.
  split; [reflexivity|].
  exact (@later_candles_only_append (engine 25000 risk_1pct) [bull_open] falling_anchor
           [rally; sell_off]
           (mk_ORBStrategy "SPY" 25000 risk_1pct 24751 0
              [mk_Trade 102 99 "Loss" 83 (stamp 1 9 35) (stamp 1 9 35)] [1%Z])
           long_102
           [mk_Trade 102 99 "Loss" 83 (stamp 1 9 35) (stamp 1 9 35)] 24751%float
           eq_refl eq_refl).
Defined.
